(** * fighting: a declarative JSON API layer over Flask

    A shallow embedding of [fighting/app.py]: the documentation-comment
    splitter, the shared/directive parsers, the directive dispatcher, the
    per-route view and the documentation renderer, followed by the
    properties the specification states about them.

    Python strings are sequences of code points, so a [str] is a [list N].
    Ordered dictionaries are association lists, plain dictionaries that are
    only looked up or sorted are [gmap]s.  Library functions the module
    calls but does not define (the YAML loader, the schema compiler, the
    Markdown and template renderers, the Unicode alphanumeric table) are
    section variables. *)

From Stdlib Require Import NArith ZArith Ascii String Lia.
From stdpp Require Import base option list gmap sorting.

Set Warnings "-register-all".

Open Scope N_scope.
Open Scope list_scope.

(** ** Python strings *)

Abbreviation char := N (only parsing).
Abbreviation pystr := (list N) (only parsing).

Fixpoint of_string (s : string) : pystr :=
  match s with
  | EmptyString => []
  | String a r => N_of_ascii a :: of_string r
  end.

Notation "'py' s" := (of_string s%string) (at level 9, s at level 0, only parsing).

Module Str.

(** [str.isspace] on one code point: the set [str.strip()] removes. *)
Definition isspace (c : char) : bool :=
  ((9 <=? c) && (c <=? 13)) || ((28 <=? c) && (c <=? 32))
  || (c =? 133) || (c =? 160) || (c =? 5760)
  || ((8192 <=? c) && (c <=? 8202))
  || (c =? 8232) || (c =? 8233) || (c =? 8239) || (c =? 8287)
  || (c =? 12288).

Definition LF : char := 10.
Definition is_lf (c : char) : bool := c =? LF.

Fixpoint drop_while (p : char -> bool) (s : pystr) : pystr :=
  match s with
  | [] => []
  | c :: r => if p c then drop_while p r else s
  end.

Fixpoint take_while (p : char -> bool) (s : pystr) : pystr :=
  match s with
  | [] => []
  | c :: r => if p c then c :: take_while p r else []
  end.

Definition lstrip (p : char -> bool) (s : pystr) : pystr := drop_while p s.
Definition rstrip (p : char -> bool) (s : pystr) : pystr :=
  rev (drop_while p (rev s)).

(** [s.strip()] and [s.strip('\n')]. *)
Definition strip_with (p : char -> bool) (s : pystr) : pystr :=
  rstrip p (lstrip p s).
Definition strip (s : pystr) : pystr := strip_with isspace s.
Definition strip_lf (s : pystr) : pystr := strip_with is_lf s.

(** [s.split(sep)] for a one-character separator: never empty. *)
Fixpoint split (sep : char) (s : pystr) : list pystr :=
  match s with
  | [] => [[]]
  | c :: r =>
      if c =? sep then [] :: split sep r
      else match split sep r with
           | [] => [[c]]
           | l :: ls => (c :: l) :: ls
           end
  end.

(** [s.split(sep, maxsplit=1)]: one or two pieces. *)
Fixpoint split_once (sep : char) (s : pystr) : pystr * option pystr :=
  match s with
  | [] => ([], None)
  | c :: r =>
      if c =? sep then ([], Some r)
      else let '(a, b) := split_once sep r in (c :: a, b)
  end.

Definition split_max1 (sep : char) (s : pystr) : list pystr :=
  match split_once sep s with
  | (a, None) => [a]
  | (a, Some b) => [a; b]
  end.

(** [sep.join(pieces)] for a one-character separator. *)
Fixpoint join (sep : char) (ps : list pystr) : pystr :=
  match ps with
  | [] => []
  | [p] => p
  | p :: rest => p ++ sep :: join sep rest
  end.

Fixpoint startswith (s prefix : pystr) : bool :=
  match prefix, s with
  | [], _ => true
  | p :: ps, c :: r => (c =? p) && startswith r ps
  | _ :: _, [] => false
  end.

(** Comparison of [str]: lexicographic on code points. *)
Fixpoint leb (s t : pystr) : bool :=
  match s, t with
  | [], _ => true
  | _ :: _, [] => false
  | a :: s', b :: t' => (a <? b) || ((a =? b) && leb s' t')
  end.

End Str.

(** ** [textwrap.dedent] *)

Module Textwrap.

Definition is_blank (c : char) : bool := (c =? 32) || (c =? 9).

(** A line made of spaces and tabs only is normalised to the empty line. *)
Definition normalise (line : pystr) : pystr :=
  if forallb is_blank line then [] else line.

Definition indent_of (line : pystr) : pystr := Str.take_while is_blank line.

Fixpoint common_prefix (a b : pystr) : pystr :=
  match a, b with
  | x :: a', y :: b' => if x =? y then x :: common_prefix a' b' else []
  | _, _ => []
  end.

(** The margin: longest common leading whitespace of the lines that have
    a character other than space and tab; [None] when there is no such
    line. *)
Fixpoint margin (lines : list pystr) : option pystr :=
  match lines with
  | [] => None
  | l :: rest =>
      match l with
      | [] => margin rest
      | _ :: _ =>
          match margin rest with
          | None => Some (indent_of l)
          | Some m => Some (common_prefix (indent_of l) m)
          end
      end
  end.

Definition remove_margin (m : pystr) (line : pystr) : pystr :=
  if Str.startswith line m then drop (length m) line else line.

Definition dedent (text : pystr) : pystr :=
  let lines := map normalise (Str.split Str.LF text) in
  match margin lines with
  | None => Str.join Str.LF lines
  | Some m => Str.join Str.LF (map (remove_margin m) lines)
  end.

End Textwrap.

(** ** Regular expressions: the fragment [re.compile] is used on *)

Module Re.

Inductive regex : Type :=
| Void
| Eps
| Class (p : char -> bool)
| Seq (r1 r2 : regex)
| Alt (r1 r2 : regex)
| Star (r : regex).

Definition Plus (r : regex) : regex := Seq r (Star r).
Definition Lit (c : char) : regex := Class (N.eqb c).

(** [accepts r w]: the whole word [w] is in the language of [r]. *)
Inductive accepts : regex -> pystr -> Prop :=
| acc_eps : accepts Eps []
| acc_class p c : p c = true -> accepts (Class p) [c]
| acc_seq r1 r2 u v :
    accepts r1 u -> accepts r2 v -> accepts (Seq r1 r2) (u ++ v)
| acc_alt_l r1 r2 u : accepts r1 u -> accepts (Alt r1 r2) u
| acc_alt_r r1 r2 u : accepts r2 u -> accepts (Alt r1 r2) u
| acc_star_nil r : accepts (Star r) []
| acc_star_app r u v :
    accepts r u -> accepts (Star r) v -> accepts (Star r) (u ++ v).

(** The pattern matches at the start of [s]: some prefix is accepted. *)
Definition matches_prefix (r : regex) (s : pystr) : Prop :=
  exists w rest, s = w ++ rest /\ accepts r w.

(** The pattern matches at offset [i] of [s]. *)
Definition matches_at (r : regex) (s : pystr) (i : nat) : Prop :=
  (i <= length s)%nat /\ matches_prefix r (drop i s).

Fixpoint nullable (r : regex) : bool :=
  match r with
  | Void => false
  | Eps => true
  | Class _ => false
  | Seq r1 r2 => nullable r1 && nullable r2
  | Alt r1 r2 => nullable r1 || nullable r2
  | Star _ => true
  end.

Fixpoint deriv (c : char) (r : regex) : regex :=
  match r with
  | Void => Void
  | Eps => Void
  | Class p => if p c then Eps else Void
  | Seq r1 r2 =>
      if nullable r1 then Alt (Seq (deriv c r1) r2) (deriv c r2)
      else Seq (deriv c r1) r2
  | Alt r1 r2 => Alt (deriv c r1) (deriv c r2)
  | Star r1 => Seq (deriv c r1) (Star r1)
  end.

(** Executable prefix matching by derivatives. *)
Fixpoint match_prefix (r : regex) (s : pystr) : bool :=
  nullable r ||
  match s with
  | [] => false
  | c :: s' => match_prefix (deriv c r) s'
  end.

(** [pattern.search(s)] followed by [match.start()]: the leftmost offset
    at which the pattern matches, tried from [0] to [len(s)]. *)
Fixpoint search_from (r : regex) (s : pystr) (i : nat) : option nat :=
  if match_prefix r s then Some i
  else match s with
       | [] => None
       | _ :: s' => search_from r s' (S i)
       end.

Definition search (r : regex) (s : pystr) : option nat := search_from r s 0.

End Re.

(** ** Python objects, responses and exceptions *)

Inductive pyval : Type :=
| PNone
| PBool (b : bool)
| PInt (z : Z)
| PStr (s : pystr)
| PList (l : list pyval)
| PDict (items : list (pyval * pyval))
| PBytes (b : list N).

(** An [OrderedDict] with [str] keys: insertion order is kept. *)
Abbreviation odict := (list (pystr * pyval)) (only parsing).

Module OrderedDict.

(** [d[k] = v]: overwrite in place, or append a new key. *)
Fixpoint set (k : pystr) (v : pyval) (d : odict) : odict :=
  match d with
  | [] => [(k, v)]
  | (k', v') :: r =>
      if decide (k' = k) then (k', v) :: r else (k', v') :: set k v r
  end.

(** The dictionary as a Python object, for serialisation. *)
Definition to_val (d : odict) : pyval :=
  PDict (map (fun kv => (PStr (fst kv), snd kv)) d).

End OrderedDict.

Inductive body : Type :=
| Html (text : pystr)
| Json (v : pyval).

Record response : Type := Response {
  status_code : Z;
  mimetype : pystr;
  data : body
}.

(** The exceptions met: Python's own, the loader's [ParserError], validr's
    [SchemaError] and [Invalid], werkzeug's HTTP exceptions with the
    response [abort] was given, and [LibraryError] for any other exception a
    library raises. *)
Inductive exn : Type :=
| AttributeError
| TypeError
| AssertionError
| KeyError (key : pystr)
| ValueError (msg : pystr)
| ParserError (msg : pystr)
| LibraryError (msg : pystr)
| SchemaError (msg : pystr)
| Invalid (msg : pystr)
| HTTPException (code : Z) (resp : option response).

(** Whatever a handler, a validator or the request can hand around. *)
Inductive obj : Type :=
| Val (v : pyval)
| Form (fields : list (pystr * pystr))
| Resp (r : response).

(** Computations that may raise. *)
Definition result (A : Type) : Type := exn + A.

#[global] Instance result_ret : MRet result := fun A x => inr x.
#[global] Instance result_bind : MBind result := fun A B k m =>
  match m with
  | inl e => inl e
  | inr x => k x
  end.

Definition raise {A : Type} (e : exn) : result A := inl e.

(** ** The documentation-comment parsers *)

Section Parsers.

(** [str.isalnum] beyond ASCII, from the Unicode database. *)
Variable unicode_alnum : char -> bool.

(** [simple_yaml.load]: the loaded object, or the exception raised. *)
Variable yaml_load : pystr -> result pyval.

(** [\w] on a [str] pattern. *)
Definition is_word (c : char) : bool :=
  if c <? 128 then
    ((48 <=? c) && (c <=? 57)) || ((65 <=? c) && (c <=? 90))
    || ((97 <=? c) && (c <=? 122)) || (c =? 95)
  else unicode_alnum c.

Definition DOLLAR : char := 36.
Definition AT : char := 64.
Definition COLON : char := 58.

(** [[\t ]*<sigil>\w+:] *)
Definition marker (sigil : char) : Re.regex :=
  Re.Seq (Re.Star (Re.Class Textwrap.is_blank))
    (Re.Seq (Re.Lit sigil)
       (Re.Seq (Re.Plus (Re.Class is_word)) (Re.Lit COLON))).

Definition RE_DIRECTIVE : Re.regex := marker DOLLAR.
Definition RE_SHARED : Re.regex := marker AT.

Definition _parse_doc (doc : option pystr) (mark : Re.regex)
  : result (pystr * pyval) :=
  match doc with
  | None => mret ([], PDict [])
  | Some doc =>
      match Re.search mark doc with
      | None => mret (Str.strip (Textwrap.dedent doc), PDict [])
      | Some start =>
          let yamltext := Textwrap.dedent (drop start doc) in
          match yaml_load yamltext with
          | inl (ParserError msg) => raise (SchemaError msg)
          | inl e => raise e
          | inr data =>
              mret (Str.strip (Textwrap.dedent (take start doc)), data)
          end
      end
  end.

(** [data.items()] *)
Definition items (data : pyval) : result (list (pyval * pyval)) :=
  match data with
  | PDict kvs => mret kvs
  | _ => raise AttributeError
  end.

(** The loop shared by [parse_directive] and [parse_shared]: every key
    must start with the sigil, which is cut off before storing.
    [k.startswith] with a [str] argument raises [TypeError] on [bytes], and
    no other type of key has the method. *)
Fixpoint strip_sigils (sigil : char) (what : pystr)
    (kvs : list (pyval * pyval)) (acc : odict) : result odict :=
  match kvs with
  | [] => mret acc
  | (k, v) :: rest =>
      match k with
      | PStr k =>
          if Str.startswith k [sigil]
          then strip_sigils sigil what rest (OrderedDict.set (drop 1 k) v acc)
          else raise (ValueError (what ++ k))
      | PBytes _ => raise TypeError
      | _ => raise AttributeError
      end
  end.

Definition parse_directive (doc : option pystr) : result (pystr * odict) :=
  '(desc, data) ← _parse_doc doc RE_DIRECTIVE;
  kvs ← items data;
  directives ← strip_sigils DOLLAR (py "Invalid directive ") kvs [];
  mret (desc, directives).

Definition parse_shared (doc : option pystr) : result (pystr * odict) :=
  '(desc, data) ← _parse_doc doc RE_SHARED;
  kvs ← items data;
  shared ← strip_sigils AT (py "Invalid shared ") kvs [];
  mret (desc, shared).

Definition DOTS : pystr := py "...".

Definition get_title (doc : option pystr) : pystr :=
  match doc with
  | None => []
  | Some [] => []
  | Some doc =>
      let lines := Str.split_max1 Str.LF (Str.strip_lf doc) in
      let title := Str.strip (hd [] lines) in
      if (20 <? length title)%nat then take 20 title ++ DOTS else title
  end.

End Parsers.

(** The first line of a comment: the text before the first newline, once
    the newlines around the comment are removed. *)
Definition first_line (doc : pystr) : pystr :=
  hd [] (Str.split_max1 Str.LF (Str.strip_lf doc)).

(** The key carries the sigil. *)
Definition has_sigil (sigil : char) (k : pystr) : Prop :=
  Str.startswith k [sigil] = true.

#[global] Instance has_sigil_dec sigil k : Decision (has_sigil sigil k).
Proof. unfold has_sigil. apply _. Defined.


(** ** Requests and responses *)

Definition TEXT_HTML : pystr := py "text/html".
Definition APPLICATION_JSON : pystr := py "application/json".
Definition GET : pystr := py "GET".
Definition POST : pystr := py "POST".

(** The attributes of Flask's [request] the module reads.  [get_json] is
    the outcome of [request.get_json()], [best_match] is
    [request.accept_mimetypes.best_match]. *)
Record request : Type := Request {
  method : pystr;
  request_mimetype : pystr;
  get_json : result pyval;
  form : list (pystr * pystr);
  args : list (pystr * pystr);
  best_match : list pystr -> pystr -> pystr
}.

(** [jsonify(v)]: a 200 response of type application/json. *)
Definition jsonify (v : pyval) : response :=
  {| status_code := 200; mimetype := APPLICATION_JSON; data := Json v |}.

(** A view that returns a [str] is answered as a 200 text/html page. *)
Definition html_response (text : pystr) : response :=
  {| status_code := 200; mimetype := TEXT_HTML; data := Html text |}.

Definition accept_json (req : request) : bool :=
  let mediatype := best_match req [TEXT_HTML; APPLICATION_JSON] TEXT_HTML in
  bool_decide (mediatype = APPLICATION_JSON)
  || bool_decide (py "json" ∈ map fst (args req)).

Definition abort {A : Type} (message : pystr) : result A :=
  let response := jsonify (PStr message) in
  let response :=
    {| status_code := 400; mimetype := mimetype response;
       data := data response |} in
  raise (HTTPException 400 (Some response)).

(** What [abort(message)] raises. *)
Definition aborted (message : pystr) : exn :=
  HTTPException 400
    (Some {| status_code := 400; mimetype := APPLICATION_JSON;
             data := Json (PStr message) |}).

Definition get_request_data (req : request) : result obj :=
  if bool_decide (request_mimetype req = APPLICATION_JSON) then
    match get_json req with
    | inl _ => abort (py "Invalid JSON content")
    | inr data =>
        match data with
        | PDict _ => mret (Val data)
        | _ => abort (py "JSON content must be object")
        end
    end
  else mret (Form (form req)).

(** One line of a resource's route list. *)
Record entry : Type := Entry { title : pystr; url : pystr }.

Definition entry_val (e : entry) : pyval :=
  PDict [(PStr (py "title"), PStr (title e)); (PStr (py "url"), PStr (url e))].

(** The route table as a Python object: a mapping from the resource name
    to the list of its entries. *)
Definition resources_val (resources : gmap pystr (list entry)) : pyval :=
  PDict (map (fun kv => (PStr kv.1, PList (map entry_val kv.2)))
             (map_to_list resources)).

(** What the document template is rendered with. *)
Record document : Type := Document {
  doc_desc : pystr;
  doc_shared : list (pystr * pystr);
  doc_directives : list (pystr * pystr);
  doc_resources : list (pystr * list entry)
}.

(** [sorted(items, key=lambda x: x[0])] *)
Definition key_le {V : Type} (x y : pystr * V) : Prop := Str.leb x.1 y.1.

#[global] Instance key_le_dec {V : Type} : RelDecision (@key_le V).
Proof. intros x y. unfold key_le. apply _. Defined.

Definition sorted_by_key {V : Type} (l : list (pystr * V)) : list (pystr * V) :=
  merge_sort key_le l.

Section Render.

(** [markdown.markdown(text, extensions=...)], [json.dumps(v,
    ensure_ascii=False, indent=4)] and [_DOC_TMPL.render]. *)
Variable origin_markdown : pystr -> list pystr -> pystr.
Variable json_dumps : pyval -> pystr.
Variable tmpl_render : document -> pystr.

Definition dumps (v : pyval) : pystr := json_dumps v.

Definition markdown (text : pystr) : pystr :=
  let extensions := [py "nl2br"; py "tables"; py "fenced_code"] in
  origin_markdown text extensions.

Definition template_context (desc : pystr) (shared : option odict)
    (resources : option (gmap pystr (list entry)))
    (directives : option odict) : document :=
  let desc := markdown desc in
  let shared :=
    match shared with
    | None => []
    | Some shared => map (fun kv => (kv.1, dumps kv.2)) shared
    end in
  let resources :=
    match resources with
    | None => []
    | Some resources => sorted_by_key (map_to_list resources)
    end in
  let directives :=
    match directives with
    | None => []
    | Some directives => map (fun kv => (kv.1, dumps kv.2)) directives
    end in
  {| doc_desc := desc; doc_shared := shared;
     doc_directives := directives; doc_resources := resources |}.

Definition render (desc : pystr) (shared : option odict)
    (resources : option (gmap pystr (list entry)))
    (directives : option odict) : pystr :=
  tmpl_render (template_context desc shared resources directives).

End Render.

(** ** Handlers, directives and the application *)

(** A URL rule: its text, the methods it lists and its endpoint. *)
Abbreviation url_rule := (pystr * (list pystr * pystr))%type (only parsing).

(** [<] opens a variable part of a rule ([<name>], [<converter:name>])
    and [>] closes it; a doubled slash is merged or not, depending on the
    version of werkzeug.  A rule with none of these is plain text, which
    werkzeug matches against a path by equality; any other rule is for
    werkzeug to parse. *)
Definition LANGLE : char := 60.
Definition RANGLE : char := 62.
Definition SLASH : char := 47.

Fixpoint has_double_slash (s : pystr) : bool :=
  match s with
  | [] => false
  | a :: rest =>
      match rest with
      | [] => false
      | b :: _ => (a =? SLASH) && (b =? SLASH) || has_double_slash rest
      end
  end.

Definition is_literal (rule : pystr) : bool :=
  negb (bool_decide (LANGLE ∈ rule)) && negb (bool_decide (RANGLE ∈ rule))
  && negb (has_double_slash rule).

(** What werkzeug makes of a path and a method: the endpoint of a rule
    with the values of its variables, or one of its HTTP exceptions. *)
Inductive match_outcome : Type :=
| Matched (endpoint : pystr) (values : list (pystr * pystr))
| MethodNotAllowed
| RequestRedirect (code : Z)
| NotFound.

Section App.

Variable unicode_alnum : char -> bool.
Variable yaml_load : pystr -> result pyval.
Variable origin_markdown : pystr -> list pystr -> pystr.
Variable json_dumps : pyval -> pystr.
Variable tmpl_render : document -> pystr.

(** The state handlers and directives may read and write while a request
    is served. *)
Variable world : Type.

(** A request-time computation: it may change the world and may raise. *)
Definition io (A : Type) : Type := world -> world * result A.

#[global] Instance io_ret : MRet io := fun A x w => (w, inr x).
#[global] Instance io_bind : MBind io := fun A B k m w =>
  match m w with
  | (w', inl e) => (w', inl e)
  | (w', inr x) => k x w'
  end.

Definition lift {A : Type} (r : result A) : io A := fun w => (w, r).

(** A handler is called with keyword arguments, under a request. *)
Definition handler : Type := request -> list (pystr * pyval) -> io obj.

(** A compiled schema: the validated object, or [Invalid]. *)
Definition validator : Type := obj -> result obj.

(** A Python function object: [__name__], [__doc__] and the body. *)
Record pyfunc : Type := PyFunc {
  fn_name : pystr;
  fn_doc : option pystr;
  fn_call : handler
}.

(** What a directive factory reads of the application it is given. *)
Record ApiContext : Type := {
  ctx_desc : pystr;
  ctx_shared : odict;
  ctx_resources : gmap pystr (list entry);
  ctx_schema_parser : pyval -> result validator
}.

(** A directive factory: handler, metadata and application in, wrapped
    handler out. *)
Local Abbreviation factory :=
  (handler -> pyval -> ApiContext -> result handler) (only parsing).

(** [data] unpacked into keyword arguments: the mapping must have [str]
    keys. *)
Fixpoint str_keys (kvs : list (pyval * pyval)) : option (list (pystr * pyval)) :=
  match kvs with
  | [] => Some []
  | (PStr k, v) :: rest => cons (k, v) <$> str_keys rest
  | _ :: _ => None
  end.

Definition kwargs_of (d : obj) : result (list (pystr * pyval)) :=
  match d with
  | Val (PDict kvs) =>
      match str_keys kvs with
      | Some kw => mret kw
      | None => raise TypeError
      end
  | Form fields => mret (map (fun kv => (kv.1, PStr kv.2)) fields)
  | _ => raise TypeError
  end.

(** [except Invalid as ex: abort(str(ex))] *)
Definition except_invalid {A : Type} (r : result A) : result A :=
  match r with
  | inl (Invalid msg) => abort msg
  | _ => r
  end.

(** The [view] closure of [input_directive]; it takes no argument. *)
Definition input_view (f : handler) (validate : validator) : handler :=
  fun req kw =>
    match kw with
    | _ :: _ => lift (raise TypeError)
    | [] =>
        data ← lift (except_invalid (get_request_data req ≫= validate));
        kw ← lift (kwargs_of data);
        f req kw
    end.

Definition input_directive (f : handler) (meta : pyval) (api : ApiContext)
  : result handler :=
  validate ← ctx_schema_parser api meta;
  mret (input_view f validate).

(** The [view] closure of [output_directive]. *)
Definition output_view (f : handler) (validate : validator) : handler :=
  fun req kw => r ← f req kw; lift (validate r).

Definition output_directive (f : handler) (meta : pyval) (api : ApiContext)
  : result handler :=
  validate ← ctx_schema_parser api meta;
  mret (output_view f validate).

(** A view function is the data its closure captures: the root view is
    the bound method [_doc], a route's view holds the parsed comment and
    the wrapped handler. *)
Inductive view : Type :=
| DocView
| RouteView (desc : pystr) (directives : odict) (f : handler)
| StaticView.

(** The Flask application underneath, as its constructor leaves it, and
    the routing of werkzeug where rules are more than plain text.
    [static_url_path] is the URL prefix under which the constructor routes
    static files ([/static] unless the caller says otherwise, [None] for an
    application without static folder); [rule_error] is the exception
    raised when a rule that is not plain text is added, if any;
    [url_match] is the outcome of matching a path and a method against the
    rules, asked when [find_rule] below finds no plain rule for the path;
    [send_static_file] is the view of the static files, called with the
    values of the rule. *)
Record Flask : Type := {
  static_url_path : option pystr;
  rule_error : pystr -> option exn;
  url_match : list url_rule -> pystr -> pystr -> match_outcome;
  send_static_file : list (pystr * pystr) -> request -> io response
}.

Variable flask : Flask.

Record Fighting : Type := {
  _directives : gmap pystr factory;
  _resources : gmap pystr (list entry);
  _desc : pystr;
  _shared : odict;
  schema_parser : pyval -> result validator;
  url_map : list url_rule;
  view_functions : gmap pystr view
}.

Definition context_of (a : Fighting) : ApiContext :=
  {| ctx_desc := _desc a; ctx_shared := _shared a;
     ctx_resources := _resources a; ctx_schema_parser := schema_parser a |}.

(** Adding a rule to the map compiles it: plain text always compiles. *)
Definition compile_rule (rule : pystr) : option exn :=
  if is_literal rule then None else rule_error flask rule.

(** Flask's [route(url, methods=..., endpoint=...)(view)]: the rule is
    compiled and added to the map, then the view is bound to the endpoint,
    which raises when the endpoint is bound already. *)
Definition route (a : Fighting) (rule : pystr) (methods : list pystr)
    (endpoint : pystr) (v : view) : Fighting * result unit :=
  let rules := url_map a ++ [(rule, (methods, endpoint))] in
  match compile_rule rule with
  | Some e => (a, raise e)
  | None =>
      match view_functions a !! endpoint with
      | Some _ =>
          ({| _directives := _directives a; _resources := _resources a;
              _desc := _desc a; _shared := _shared a;
              schema_parser := schema_parser a;
              url_map := rules; view_functions := view_functions a |},
           raise AssertionError)
      | None =>
          ({| _directives := _directives a; _resources := _resources a;
              _desc := _desc a; _shared := _shared a;
              schema_parser := schema_parser a;
              url_map := rules;
              view_functions := <[endpoint := v]> (view_functions a) |},
           mret tt)
      end
  end.

Definition builtin_directives : gmap pystr factory :=
  <[py "input" := input_directive]> (<[py "output" := output_directive]> ∅).

(** What [Flask.__init__] has routed when it returns: the static files,
    for an application with a static folder. *)
Definition static_rules : list url_rule :=
  match static_url_path flask with
  | Some prefix => [(prefix ++ py "/<path:filename>", ([GET], py "static"))]
  | None => []
  end.

Definition static_views : gmap pystr view :=
  match static_url_path flask with
  | Some _ => <[py "static" := StaticView]> ∅
  | None => ∅
  end.

(** [Fighting.__init__], after [super().__init__] has run: [module_doc]
    is the import module's [__doc__], [make_parser] stands for
    [SchemaParser(validators=..., shared=...)] with the caller's
    validators, and gives the [parse] of the parser it builds. *)
Definition init (module_doc : option pystr)
    (make_parser : odict -> result (pyval -> result validator))
    (directives : option (gmap pystr factory)) : result Fighting :=
  let registry :=
    match directives with
    | Some ds => ds ∪ builtin_directives
    | None => builtin_directives
    end in
  '(desc, shared) ← parse_shared unicode_alnum yaml_load module_doc;
  parse ← make_parser shared;
  let '(a, bound) :=
    route {| _directives := registry; _resources := ∅; _desc := desc;
             _shared := shared; schema_parser := parse;
             url_map := static_rules; view_functions := static_views |}
          (py "/") [GET] (py "_doc") DocView in
  _ ← bound; mret a.

(** [dict(desc=self._desc, resources=self._resources,
    shared=self._shared)] as the object [jsonify] is given. *)
Definition params_val (a : Fighting) : pyval :=
  PDict [(PStr (py "desc"), PStr (_desc a));
         (PStr (py "resources"), resources_val (_resources a));
         (PStr (py "shared"), OrderedDict.to_val (_shared a))].

Definition _doc (a : Fighting) (req : request) : response :=
  if accept_json req then jsonify (params_val a)
  else html_response
         (render origin_markdown json_dumps tmpl_render
            (_desc a) (Some (_shared a)) (Some (_resources a)) None).

(** The loop of [make_view]: each named factory wraps the handler built
    so far. *)
Fixpoint apply_directives (registry : gmap pystr factory) (api : ApiContext)
    (f : handler) (directives : odict) : result handler :=
  match directives with
  | [] => mret f
  | (directive, meta) :: rest =>
      match registry !! directive with
      | None => raise (KeyError directive)
      | Some make =>
          f' ← make f meta api;
          apply_directives registry api f' rest
      end
  end.

Definition make_view (a : Fighting) (f : pyfunc) : result view :=
  '(desc, directives) ← parse_directive unicode_alnum yaml_load (fn_doc f);
  f' ← apply_directives (_directives a) (context_of a) (fn_call f) directives;
  mret (RouteView desc directives f').

(** [jsonify(response)] on what a handler returned. *)
Definition to_val (o : obj) : pyval :=
  match o with
  | Val v => v
  | Form fields => PDict (map (fun kv => (PStr kv.1, PStr kv.2)) fields)
  | Resp _ => PNone
  end.

(** The [view] closure of [make_view]. *)
Definition route_view (desc : pystr) (directives : odict) (f : handler)
    (req : request) : io response :=
  if bool_decide (method req = POST) then
    r ← f req [];
    match r with
    | Resp resp => mret resp
    | _ => mret (jsonify (to_val r))
    end
  else if bool_decide (method req = GET) then
    if accept_json req then
      mret (jsonify (PDict [(PStr (py "desc"), PStr desc);
                            (PStr (py "directives"),
                             OrderedDict.to_val directives)]))
    else
      mret (html_response
              (render origin_markdown json_dumps tmpl_render
                 desc None None (Some directives)))
  else lift (raise (HTTPException 405 None)).

(** [Fighting.res(resource)(f)]: the application afterwards, and whether
    the decorator raised. *)
Definition res (a : Fighting) (resource : pystr) (f : pyfunc)
  : Fighting * result unit :=
  let action := fn_name f in
  let endpoint := resource ++ py "." ++ action in
  let url := py "/" ++ resource ++ py "/" ++ action in
  let a :=
    {| _directives := _directives a;
       _resources :=
         <[resource := default [] (_resources a !! resource)
                       ++ [{| title := get_title (fn_doc f); url := url |}]]>
           (_resources a);
       _desc := _desc a; _shared := _shared a;
       schema_parser := schema_parser a;
       url_map := url_map a; view_functions := view_functions a |} in
  match make_view a f with
  | inl e => (a, inl e)
  | inr v => route a url [GET; POST] endpoint v
  end.

(** *** Serving a request *)

(** Flask calls the view with the values of the rule as keyword
    arguments; the views of this module take none. *)
Definition run_view (a : Fighting) (v : view) (values : list (pystr * pystr))
    (req : request) : io response :=
  match v with
  | StaticView => send_static_file flask values req
  | DocView =>
      match values with
      | [] => mret (_doc a req)
      | _ :: _ => lift (raise TypeError)
      end
  | RouteView desc directives f =>
      match values with
      | [] => route_view desc directives f req
      | _ :: _ => lift (raise TypeError)
      end
  end.

(** Flask's default pages for errors and redirections; their text and
    headers are not modelled. *)
Definition error_response (code : Z) : response :=
  {| status_code := code; mimetype := TEXT_HTML; data := Html [] |}.

(** Flask's treatment of what a view raised: an HTTP exception is
    answered with its response, anything else is a server fault. *)
Definition finalize (r : result response) : response :=
  match r with
  | inr resp => resp
  | inl (HTTPException _ (Some resp)) => resp
  | inl (HTTPException code None) => error_response code
  | inl _ => error_response 500
  end.

(** The first plain rule that is the path: werkzeug tries the rules
    without variable part before the others, in the order they were
    added.  A plain rule that is the path followed by a slash ends the
    search: whether werkzeug then redirects or goes on depends on its
    version. *)
Fixpoint find_rule (rules : list url_rule) (path : pystr)
  : option (list pystr * pystr) :=
  match rules with
  | [] => None
  | (rule, target) :: rest =>
      if is_literal rule then
        if bool_decide (rule = path) then Some target
        else if bool_decide (rule = path ++ [SLASH]) then None
        else find_rule rest path
      else find_rule rest path
  end.

(** Flask's dispatch.  When a plain rule is the path: its own answer to
    [OPTIONS], 405 for a method the rule does not list ([HEAD] comes with
    [GET]), else the view, called without values.  When [find_rule] finds
    none, werkzeug decides: 404, 405, a redirection, or the view of the
    rule matched, called with the values of its variables. *)
Definition dispatch (a : Fighting) (path : pystr) (req : request)
  : world -> world * response :=
  fun w =>
    match find_rule (url_map a) path with
    | None =>
        match url_match flask (url_map a) path (method req) with
        | NotFound => (w, error_response 404)
        | MethodNotAllowed => (w, error_response 405)
        | RequestRedirect code => (w, error_response code)
        | Matched endpoint values =>
            if bool_decide (method req = py "OPTIONS")
            then (w, html_response [])
            else
              match view_functions a !! endpoint with
              | None => (w, error_response 500)
              | Some v =>
                  let '(w', r) := run_view a v values req w in
                  (w', finalize r)
              end
        end
    | Some (methods, endpoint) =>
        let allowed :=
          if bool_decide (GET ∈ methods) then py "HEAD" :: methods
          else methods in
        if bool_decide (method req = py "OPTIONS") then (w, html_response [])
        else if bool_decide (method req ∈ allowed) then
          match view_functions a !! endpoint with
          | None => (w, error_response 500)
          | Some v =>
              let '(w', r) := run_view a v [] req w in (w', finalize r)
          end
        else (w, error_response 405)
    end.

End App.

Abbreviation factory world :=
  (handler world -> pyval -> ApiContext -> result (handler world))
  (only parsing).

Arguments lift {world A} r _.
Arguments PyFunc {world}.
Arguments fn_name {world}.
Arguments fn_doc {world}.
Arguments fn_call {world}.
Arguments DocView {world}.
Arguments RouteView {world}.
Arguments StaticView {world}.
Arguments static_url_path {world}.
Arguments rule_error {world}.
Arguments url_match {world}.
Arguments send_static_file {world}.
Arguments compile_rule {world}.
Arguments static_rules {world}.
Arguments static_views {world}.
Arguments _directives {world}.
Arguments _resources {world}.
Arguments _desc {world}.
Arguments _shared {world}.
Arguments schema_parser {world}.
Arguments url_map {world}.
Arguments view_functions {world}.
Arguments input_view {world}.
Arguments input_directive {world}.
Arguments output_view {world}.
Arguments output_directive {world}.
Arguments context_of {world}.
Arguments route {world}.
Arguments init _ _ {world}.
Arguments params_val {world}.
Arguments _doc _ _ _ {world}.
Arguments apply_directives {world}.
Arguments make_view _ _ {world}.
Arguments route_view _ _ _ {world}.
Arguments res _ _ {world}.
Arguments run_view _ _ _ {world}.
Arguments dispatch _ _ _ {world}.


(** One name strictly before the other. *)
Definition key_lt {V : Type} (x y : pystr * V) : Prop :=
  Str.leb x.1 y.1 /\ x.1 <> y.1.

(** ** The specification's reading of the comment format *)

Section SpecReading.

Variable unicode_alnum : char -> bool.
Variable yaml_load : pystr -> result pyval.

(** A marker line in the specification's words: optional indentation, the
    one-character sigil, a word, then a colon (whatever follows it). *)
Definition spec_marker_line (sigil : char) (line : pystr) : bool :=
  match Str.drop_while Textwrap.is_blank line with
  | [] => false
  | c :: rest =>
      let word := Str.take_while (is_word unicode_alnum) rest in
      (c =? sigil) && negb (bool_decide (word = []))
      && Str.startswith (drop (length word) rest) [COLON]
  end.

(** Offset of the start of the first marker line, lines being numbered
    from the given offset. *)
Fixpoint first_marker_line (sigil : char) (lines : list pystr) (offset : nat)
  : option nat :=
  match lines with
  | [] => None
  | l :: rest =>
      if spec_marker_line sigil l then Some offset
      else first_marker_line sigil rest (offset + length l + 1)
  end.

Definition spec_split_point (sigil : char) (doc : pystr) : option nat :=
  first_marker_line sigil (Str.split Str.LF doc) 0.

(** The doc splitter in the specification's words: the comment is cut at
    the start of the first marker line. *)
Definition spec_parse_doc (sigil : char) (doc : option pystr)
  : result (pystr * pyval) :=
  match doc with
  | None => mret ([], PDict [])
  | Some doc =>
      match spec_split_point sigil doc with
      | None => mret (Str.strip (Textwrap.dedent doc), PDict [])
      | Some start =>
          data ← yaml_load (Textwrap.dedent (drop start doc));
          mret (Str.strip (Textwrap.dedent (take start doc)), data)
      end
  end.

(** The title in the specification's words: the first line of the prose
    description, cut after 20 characters. *)
Definition spec_title (desc : pystr) : pystr :=
  let line := Str.strip (hd [] (Str.split Str.LF desc)) in
  if (20 <? length line)%nat then take 20 line ++ DOTS else line.

End SpecReading.

(** ** Registration of several routes *)

Section Registration.

Variable unicode_alnum : char -> bool.
Variable yaml_load : pystr -> result pyval.
Variable world : Type.
Variable flask : Flask world.

(** The route-list line [res] records for a handler. *)
Definition entry_of (resource : pystr) (f : pyfunc world) : entry :=
  {| title := get_title (fn_doc f);
     url := py "/" ++ resource ++ py "/" ++ fn_name f |}.

(** The decorators of a module run one after the other; a decorator that
    raises leaves the application as it was at that point. *)
Definition register_all (a : Fighting world)
    (calls : list (pystr * pyfunc world)) : Fighting world :=
  foldl (fun a c => (res unicode_alnum yaml_load flask a c.1 c.2).1) a calls.

(** The handlers registered under a resource, in the order of the calls. *)
Definition registered_for (resource : pystr)
    (calls : list (pystr * pyfunc world)) : list (pyfunc world) :=
  map snd (filter (fun c => c.1 = resource) calls).

(** The application with another directive registry. *)
Definition with_directives (a : Fighting world)
    (registry : gmap pystr (factory world)) : Fighting world :=
  {| _directives := registry; _resources := _resources a;
     _desc := _desc a; _shared := _shared a;
     schema_parser := schema_parser a;
     url_map := url_map a; view_functions := view_functions a |}.

End Registration.

Arguments entry_of {world}.
Arguments register_all _ _ {world}.
Arguments with_directives {world}.
Arguments registered_for {world}.

(** ** The client, [fighting/res.py] *)

(** What the client reads of the response [requests.post] returns: the
    status code, the body as [response.json()] decodes it ([None] when it
    raises [ValueError]) and the text of the [HTTPError] that
    [raise_for_status] raises for it. *)
Record http_response : Type := HttpResponse {
  http_status : Z;
  http_json : option pyval;
  http_error : pystr
}.

(** The outcome of [requests.post(url, json=data)]. *)
Inductive post_outcome : Type :=
| Responded (response : http_response)
| RequestException (text : pystr)
| OtherException (e : exn).

(** What [Res.post] raises: [ResError] with its message, or an exception
    of [requests.post] that is not a [RequestException]. *)
Inductive client_exn : Type :=
| ResError (msg : pyval)
| Uncaught (e : exn).

(** [response.raise_for_status()] raises for a 4xx or 5xx status. *)
Definition raises_for_status (response : http_response) : bool :=
  (400 <=? http_status response)%Z && (http_status response <? 600)%Z.

Record Res : Type := { url_prefix : pystr }.

Section Client.

Variable requests_post : pystr -> option pyval -> post_outcome.

Definition post (self : Res) (url : pystr) (data : option pyval)
  : client_exn + pyval :=
  let url := url_prefix self ++ url in
  match requests_post url data with
  | RequestException text => inl (ResError (PStr text))
  | OtherException e => inl (Uncaught e)
  | Responded response =>
      if raises_for_status response then
        match http_json response with
        | Some msg => inl (ResError msg)
        | None => inl (ResError (PStr (http_error response)))
        end
      else
        match http_json response with
        | Some value => inr value
        | None =>
            inl (ResError (PStr (py "response data not valid JSON document")))
        end
  end.

End Client.

(** ** A small instance, for concrete runs *)

Module Demo.

(** No alphanumeric character beyond ASCII. *)
Definition ascii_only (c : char) : bool := false.

(** A loader for flat blocks: one [key: value] pair per line.  A line
    that is no pair stops the scanner, which is not a parser error. *)
Definition ScannerError : exn :=
  LibraryError (py "ScannerError: could not find expected ':'").

Definition load_line (line : pystr) : result (pyval * pyval) :=
  match Str.split_once COLON line with
  | (k, Some v) => mret (PStr (Str.strip k), PStr (Str.strip v))
  | (_, None) => raise ScannerError
  end.

Fixpoint load_lines (lines : list pystr) : result (list (pyval * pyval)) :=
  match lines with
  | [] => mret []
  | l :: rest =>
      if bool_decide (Str.strip l = []) then load_lines rest
      else kv ← load_line l; kvs ← load_lines rest; mret (kv :: kvs)
  end.

Definition flat_yaml (text : pystr) : result pyval :=
  kvs ← load_lines (Str.split Str.LF text); mret (PDict kvs).







Fixpoint lookup_key (k : pystr) (kvs : list (pyval * pyval)) : option pyval :=
  match kvs with
  | [] => None
  | (PStr k', v) :: rest =>
      if bool_decide (k' = k) then Some v else lookup_key k rest
  | _ :: rest => lookup_key k rest
  end.

(** A schema compiler knowing one schema: a mapping with a [name]. *)
Definition need_name : validator :=
  fun o =>
    match o with
    | Val (PDict kvs) =>
        match lookup_key (py "name") kvs with
        | Some v => inr (Val (PDict [(PStr (py "name"), v)]))
        | None => inl (Invalid (py "name: required"))
        end
    | _ => inl (Invalid (py "invalid"))
    end.

Definition name_parser (meta : pyval) : result validator :=
  inr need_name.

Definition make_parser (shared : odict)
  : result (pyval -> result validator) :=
  inr name_parser.

Definition no_markdown (text : pystr) (extensions : list pystr) : pystr := text.
Definition no_dumps (v : pyval) : pystr := [].
Definition no_template (d : document) : pystr := doc_desc d.

(** The world counts how often something ran. *)
Definition hello : handler nat :=
  fun req kw w => (S w, inr (Val (PDict (map (fun kv => (PStr kv.1, kv.2)) kw)))).

(** A caller-supplied directive: it counts the request, then hands over. *)
Definition count_directive : factory nat :=
  fun f meta api => inr (fun req kw w => f req kw (w + 100)%nat).

Definition json_post (body : result pyval) : request :=
  {| method := POST; request_mimetype := APPLICATION_JSON;
     get_json := body; form := []; args := [];
     best_match := fun _ default => default |}.

Definition get_request (query : list (pystr * pystr)) : request :=
  {| method := GET; request_mimetype := []; get_json := inr PNone;
     form := []; args := query; best_match := fun _ default => default |}.

(** The Flask application of the instance: static files under [/static],
    none of which exists.  Its rule is the only one that is not plain
    text, so that no rule is refused and a path matches it or none. *)
Definition static_only (rules : list url_rule) (path method : pystr)
  : match_outcome :=
  if bool_decide ((py "/static/<path:filename>", ([GET], py "static")) ∈ rules)
     && Str.startswith path (py "/static/")
     && match drop 8 path with
        | [] => false
        | c :: _ => negb (c =? 47)
        end
  then
    if bool_decide (method ∈ [GET; py "HEAD"; py "OPTIONS"])
    then Matched (py "static") [(py "filename", drop 8 path)]
    else MethodNotAllowed
  else NotFound.

Definition flask : Flask nat :=
  {| static_url_path := Some (py "/static");
     rule_error := fun _ => None;
     url_match := static_only;
     send_static_file := fun _ _ w => (w, inl (HTTPException 404 None)) |}.

Definition app : result (Fighting nat) :=
  init ascii_only flat_yaml flask None make_parser
       (Some (<[py "count" := count_directive]> ∅)).

Definition doc_hello : pystr := py "
    Say hello

    $input: name
    $output: message
    ".

Definition doc_mixed : pystr := py "
    @message: text
    other: text
    ".

(** A marker in the middle of a line, and one before a marker line. *)
Definition doc_price : pystr := py "pay $x: 1".

Definition doc_two : pystr := py "cost $a: 1
$b: 2".

(** A comment that starts with its directive block, and one whose first
    line is blank but for a space. *)
Definition doc_block_first : pystr := py "
    $input: name
    ".

Definition doc_blank_first : pystr := [10; 32; 10] ++ py "Title".

Definition doc_long : pystr := py "
    An action with a long first line

    $input: name
    ".

(** The application before any route is registered. *)
Definition blank : Fighting nat :=
  {| _directives := ∅; _resources := ∅; _desc := []; _shared := [];
     schema_parser := name_parser; url_map := []; view_functions := ∅ |}.

Definition base : Fighting nat :=
  match app with
  | inr a => a
  | inl _ => blank
  end.

Definition f_unknown : pyfunc nat :=
  {| fn_name := py "invalid2";
     fn_doc := Some (py "
    $unknown: name
    ");
     fn_call := hello |}.

Definition f_plain : pyfunc nat :=
  {| fn_name := py "plain"; fn_doc := Some (py "Say hello");
     fn_call := hello |}.

(** A handler under the input directive and, around it, the counting one. *)
Definition f_counted : pyfunc nat :=
  {| fn_name := py "counted";
     fn_doc := Some (py "
    Say hello

    $input: name
    $count: 1
    ");
     fn_call := hello |}.

(** [base] with two routes registered. *)
Definition served : Fighting nat :=
  register_all ascii_only flat_yaml flask base
    [(py "r", f_counted); (py "r", f_plain)].

Definition no_name : request := json_post (inr (PDict [])).
Definition named : request :=
  json_post (inr (PDict [(PStr (py "name"), PStr (py "kk"))])).
Definition array_body : request := json_post (inr (PList [PInt 1; PInt 2; PInt 3])).
Definition broken_body : request := json_post (inl (LibraryError (py "bad request"))).

(** The comment of the test suite's invalid handler: a line that is no
    pair. *)
Definition doc_broken : pystr := py "
    $input: name
    invalid YAML
    ".



(** A transport that hands the request to [served] and the answer back. *)
Definition transport (url : pystr) (payload : option pyval) : post_outcome :=
  let answer :=
    (dispatch no_markdown no_dumps no_template flask served url
              (json_post (inr (default PNone payload))) 0%nat).2 in
  Responded
    {| http_status := status_code answer;
       http_json := match data answer with
                    | Json v => Some v
                    | Html _ => None
                    end;
       http_error := py "HTTP error" |}.

Definition client : Res := {| url_prefix := py "/r" |}.

(** An application without static folder, with werkzeug's matching of the
    one rule [/<x>/plain]: a segment that is not empty, then [/plain]. *)
Definition x_plain (rules : list url_rule) (path method : pystr)
  : match_outcome :=
  match path with
  | [] => NotFound
  | c :: rest =>
      match Str.split_once SLASH rest with
      | (segment, Some tail) =>
          if (c =? SLASH) && bool_decide (segment <> [])
             && bool_decide (tail = py "plain")
          then
            if bool_decide (method ∈ [GET; POST; py "HEAD"; py "OPTIONS"])
            then Matched (py "<x>.plain") [(py "x", segment)]
            else MethodNotAllowed
          else NotFound
      | (_, None) => NotFound
      end
  end.

Definition flask_x : Flask nat :=
  {| static_url_path := None;
     rule_error := fun _ => None;
     url_match := x_plain;
     send_static_file := fun _ _ w => (w, inl (HTTPException 404 None)) |}.

Definition base_x : Fighting nat :=
  match init ascii_only flat_yaml flask_x None make_parser None with
  | inr a => a
  | inl _ => blank
  end.

End Demo.

(** * Properties *)

(** ** The matcher agrees with the language of the pattern *)

Section ReFacts.

Import Re.

Lemma accepts_seq_inv r1 r2 w :
  accepts (Seq r1 r2) w ->
  exists u v, w = u ++ v /\ accepts r1 u /\ accepts r2 v.
Proof. inversion 1; subst; eauto. Qed.

Lemma accepts_alt_inv r1 r2 w :
  accepts (Alt r1 r2) w -> accepts r1 w \/ accepts r2 w.
Proof. inversion 1; subst; eauto. Qed.

Lemma accepts_class_inv p w :
  accepts (Class p) w -> exists c, w = [c] /\ p c = true.
Proof. inversion 1; subst; eauto. Qed.

Lemma accepts_eps_inv w : accepts Eps w -> w = [].
Proof. by inversion 1. Qed.

Lemma accepts_void_inv w : ~ accepts Void w.
Proof. inversion 1. Qed.

Lemma nullable_spec r : nullable r = true <-> accepts r [].
Proof.
  induction r as [| |p|r1 IH1 r2 IH2|r1 IH1 r2 IH2|r IH]; simpl.
  - split; [discriminate | by intros ?%accepts_void_inv].
  - split; [constructor | reflexivity].
  - split; [discriminate|]. by intros (c & ? & _)%accepts_class_inv.
  - rewrite andb_true_iff, IH1, IH2. split.
    + intros [H1 H2]. change (@nil N) with (@nil N ++ []). by constructor.
    + intros (u & v & Heq & Hu & Hv)%accepts_seq_inv.
      symmetry in Heq. apply app_eq_nil in Heq as [-> ->]. done.
  - rewrite orb_true_iff, IH1, IH2. split.
    + intros [H|H]; [by apply acc_alt_l | by apply acc_alt_r].
    + apply accepts_alt_inv.
  - split; [constructor | reflexivity].
Qed.

Lemma accepts_seq_cons_inv r1 r2 c w :
  accepts (Seq r1 r2) (c :: w) ->
  (exists u v, w = u ++ v /\ accepts r1 (c :: u) /\ accepts r2 v)
  \/ (accepts r1 [] /\ accepts r2 (c :: w)).
Proof.
  intros (u & v & Heq & Hu & Hv)%accepts_seq_inv.
  destruct u as [|x u]; simpl in *.
  - right. by subst.
  - left. injection Heq as -> ->. by exists u, v.
Qed.

Lemma accepts_star_cons_inv r c w :
  accepts (Star r) (c :: w) ->
  exists u v, w = u ++ v /\ accepts r (c :: u) /\ accepts (Star r) v.
Proof.
  intros H. remember (Star r) as e eqn:He. remember (c :: w) as s eqn:Hs.
  revert w Hs.
  induction H as [| | | | | |r' u v Hu _ Hv IH]; try discriminate.
  injection He as ->. intros w Hs.
  destruct u as [|x u]; simpl in *.
  - by apply IH.
  - injection Hs as -> <-. by exists u, v.
Qed.

Lemma deriv_spec c r w : accepts (deriv c r) w <-> accepts r (c :: w).
Proof.
  revert w.
  induction r as [| |p|r1 IH1 r2 IH2|r1 IH1 r2 IH2|r IH]; intros w; simpl.
  - split; by intros ?%accepts_void_inv.
  - split; [by intros ?%accepts_void_inv | by intros ?%accepts_eps_inv].
  - destruct (p c) eqn:Hp; split.
    + intros ->%accepts_eps_inv. by constructor.
    + intros (c' & [= -> ->] & _)%accepts_class_inv. constructor.
    + by intros ?%accepts_void_inv.
    + intros (c' & [= -> ->] & ?)%accepts_class_inv. congruence.
  - split.
    + intros H. destruct (nullable r1) eqn:Hn.
      * apply accepts_alt_inv in H as [H|H].
        -- apply accepts_seq_inv in H as (u & v & -> & Hu & Hv).
           apply IH1 in Hu. by apply (acc_seq r1 r2 (c :: u) v).
        -- apply IH2 in H. apply nullable_spec in Hn.
           by apply (acc_seq r1 r2 [] (c :: w)).
      * apply accepts_seq_inv in H as (u & v & -> & Hu & Hv).
        apply IH1 in Hu. by apply (acc_seq r1 r2 (c :: u) v).
    + intros H.
      apply accepts_seq_cons_inv in H as [(u & v & -> & Hu & Hv)|[Hn Hv]].
      * apply IH1 in Hu. destruct (nullable r1).
        -- apply acc_alt_l. by constructor.
        -- by constructor.
      * apply nullable_spec in Hn. rewrite Hn. apply acc_alt_r. by apply IH2.
  - split.
    + intros [H|H]%accepts_alt_inv;
        [apply acc_alt_l, IH1 | apply acc_alt_r, IH2]; done.
    + intros [H|H]%accepts_alt_inv;
        [apply acc_alt_l, IH1 | apply acc_alt_r, IH2]; done.
  - split.
    + intros (u & v & -> & Hu & Hv)%accepts_seq_inv.
      apply IH in Hu. by apply (acc_star_app r (c :: u) v).
    + intros H. apply accepts_star_cons_inv in H as (u & v & -> & Hu & Hv).
      apply IH in Hu. by constructor.
Qed.

Lemma match_prefix_spec r s : match_prefix r s = true <-> matches_prefix r s.
Proof.
  revert r. induction s as [|c s IH]; intros r; simpl.
  - rewrite orb_false_r, nullable_spec. split.
    + intros H. by exists [], [].
    + intros (w & rest & Heq & H). symmetry in Heq.
      apply app_eq_nil in Heq as [-> _]. done.
  - rewrite orb_true_iff, nullable_spec, IH. split.
    + intros [H|(w & rest & -> & H)].
      * by exists [], (c :: s).
      * exists (c :: w), rest. split; [done|]. by apply deriv_spec.
    + intros (w & rest & Heq & H). destruct w as [|x w]; simpl in *.
      * by left.
      * injection Heq as -> ->. right. exists w, rest. split; [done|].
        by apply deriv_spec.
Qed.

Lemma search_from_spec r s i k :
  search_from r s i = Some k ->
  exists j, k = (i + j)%nat /\ (j <= length s)%nat
            /\ match_prefix r (drop j s) = true
            /\ forall j', (j' < j)%nat -> match_prefix r (drop j' s) = false.
Proof.
  revert i. induction s as [|c s IH]; intros i; simpl.
  - destruct (nullable r) eqn:Hn; simpl; [|discriminate].
    intros [= <-]. exists 0%nat. simpl. rewrite Hn. repeat split; [lia|lia|].
    intros; lia.
  - destruct (nullable r || match_prefix (deriv c r) s) eqn:Hm.
    + intros [= <-]. exists 0%nat. simpl. rewrite Hm.
      repeat split; [lia|lia|]. intros; lia.
    + intros H. apply IH in H as (j & -> & Hj & Hmj & Hlt).
      exists (S j). simpl. repeat split; [lia|lia|done|].
      intros [|j'] ?; simpl; [done|]. apply Hlt. lia.
Qed.

Lemma search_from_none r s i :
  search_from r s i = None ->
  forall j, match_prefix r (drop j s) = false.
Proof.
  revert i. induction s as [|c s IH]; intros i; simpl.
  - destruct (nullable r) eqn:Hn; simpl; [discriminate|].
    intros _ j. rewrite drop_nil. simpl. by rewrite Hn.
  - destruct (nullable r || match_prefix (deriv c r) s) eqn:Hm; [discriminate|].
    intros H [|j]; simpl; [done|]. by eapply IH.
Qed.

(** [search] returns the leftmost offset at which the pattern matches. *)
Lemma search_some r s i :
  search r s = Some i ->
  matches_at r s i /\ forall j, (j < i)%nat -> ~ matches_at r s j.
Proof.
  intros H. apply search_from_spec in H as (j & -> & Hj & Hm & Hlt).
  simpl. split.
  - split; [done|]. by apply match_prefix_spec.
  - intros j' Hj' [_ Hp]. apply match_prefix_spec in Hp.
    rewrite Hlt in Hp; [discriminate|done].
Qed.

Lemma search_none r s :
  search r s = None -> forall i, ~ matches_at r s i.
Proof.
  intros H i [_ Hp]. apply match_prefix_spec in Hp.
  by rewrite (search_from_none _ _ _ H) in Hp.
Qed.

Lemma search_complete r s i :
  matches_at r s i -> exists j, (j <= i)%nat /\ search r s = Some j.
Proof.
  intros Hi. destruct (search r s) as [j|] eqn:Hs.
  - exists j. split; [|done]. apply search_some in Hs as [_ Hmin].
    destruct (decide (j <= i)%nat); [done|]. exfalso. apply (Hmin i); [lia|done].
  - exfalso. by eapply search_none.
Qed.

Lemma search_leftmost r s i :
  Re.matches_at r s i ->
  (forall j, (j < i)%nat -> ~ Re.matches_at r s j) ->
  Re.search r s = Some i.
Proof.
  intros Hi Hmin. destruct (search_complete r s i Hi) as (j & Hj & Hs).
  destruct (search_some r s j Hs) as [Hmj _].
  destruct (decide (j = i)) as [->|Hne]; [done|].
  exfalso. apply (Hmin j); [lia | done].
Qed.

Lemma search_no_match r s :
  (forall i, ~ Re.matches_at r s i) -> Re.search r s = None.
Proof.
  intros Hno. destruct (Re.search r s) as [i|] eqn:Hs; [|done].
  destruct (search_some r s i Hs) as [Hi _]. by destruct (Hno i).
Qed.

End ReFacts.

(** ** Keys of a block: sigil stripped, order kept *)

Section SigilKeys.

Lemma has_sigil_cons sigil k : has_sigil sigil k -> k = sigil :: drop 1 k.
Proof.
  unfold has_sigil. destruct k as [|c k]; simpl; [discriminate|].
  intros [Hc _]%andb_true_iff. apply N.eqb_eq in Hc. by subst.
Qed.






End SigilKeys.

Section ParseKeys.

Variable unicode_alnum : char -> bool.
Variable yaml_load : pystr -> result pyval.

Local Abbreviation RE_DIRECTIVE := (RE_DIRECTIVE unicode_alnum).
Local Abbreviation RE_SHARED := (RE_SHARED unicode_alnum).
Local Abbreviation _parse_doc := (_parse_doc yaml_load).
Local Abbreviation parse_directive := (parse_directive unicode_alnum yaml_load).
Local Abbreviation parse_shared := (parse_shared unicode_alnum yaml_load).






End ParseKeys.

(** ** The doc splitter cuts at the leftmost match *)

Section StrFacts.

Lemma take_drop_while p s : Str.take_while p s ++ Str.drop_while p s = s.
Proof.
  induction s as [|c s IH]; simpl; [done|].
  destruct (p c); simpl; [by rewrite IH | done].
Qed.

Lemma take_while_all p s : Forall (fun c => p c = true) (Str.take_while p s).
Proof.
  induction s as [|c s IH]; simpl; [constructor|].
  destruct (p c) eqn:Hp; by constructor.
Qed.

Lemma startswith_1 s c : Str.startswith s [c] = true -> exists r, s = c :: r.
Proof.
  destruct s as [|x s]; simpl; [discriminate|].
  intros [Hx _]%andb_true_iff. apply N.eqb_eq in Hx. subst. by exists s.
Qed.

(** The first piece of [split] and what follows it. *)
Lemma split_inv sep s :
  exists l ls, Str.split sep s = l :: ls
    /\ ((ls = [] /\ s = l)
        \/ (exists s', s = l ++ sep :: s' /\ ls = Str.split sep s')).
Proof.
  induction s as [|c s (l & ls & Hs & IH)]; simpl.
  - exists [], []. split; [done|]. by left.
  - destruct (c =? sep) eqn:Hc.
    + apply N.eqb_eq in Hc. subst. exists [], (l :: ls). rewrite Hs.
      split; [done|]. right. by exists s.
    + rewrite Hs. exists (c :: l), ls. split; [done|].
      destruct IH as [[-> ->]|(s' & -> & ->)]; [by left|].
      right. by exists s'.
Qed.

End StrFacts.

Section MarkerFacts.

Variable unicode_alnum : char -> bool.

Local Abbreviation is_word := (is_word unicode_alnum).
Local Abbreviation marker := (marker unicode_alnum).
Local Abbreviation spec_split_point := (spec_split_point unicode_alnum).
Local Abbreviation first_marker_line := (first_marker_line unicode_alnum).

Lemma accepts_star_class p w :
  Forall (fun c => p c = true) w -> Re.accepts (Re.Star (Re.Class p)) w.
Proof.
  induction 1 as [|c w Hc _ IH]; [constructor|].
  apply (Re.acc_star_app _ [c] w); [by constructor | done].
Qed.

Lemma matches_prefix_app r s rest :
  Re.matches_prefix r s -> Re.matches_prefix r (s ++ rest).
Proof.
  intros (w & t & -> & Hw). exists w, (t ++ rest). by rewrite app_assoc.
Qed.

Lemma drop_length_take_while p s :
  drop (length (Str.take_while p s)) s = Str.drop_while p s.
Proof.
  rewrite <- (take_drop_while p s) at 2. by rewrite drop_app_length.
Qed.

(** A marker line in the specification's words is a line the pattern
    matches at its start. *)
Lemma spec_marker_line_matches sigil line :
  spec_marker_line unicode_alnum sigil line = true -> Re.matches_prefix (marker sigil) line.
Proof.
  unfold spec_marker_line.
  pose proof (take_drop_while Textwrap.is_blank line) as Hline.
  pose proof (take_while_all Textwrap.is_blank line) as Hblank.
  set (blanks := Str.take_while Textwrap.is_blank line) in *. clearbody blanks.
  destruct (Str.drop_while Textwrap.is_blank line) as [|c rest]; [discriminate|].
  intros [[Hc Hw]%andb_true_iff Hcolon]%andb_true_iff.
  apply N.eqb_eq in Hc. subst c.
  rewrite drop_length_take_while in Hcolon.
  pose proof (take_drop_while is_word rest) as Hrest.
  pose proof (take_while_all is_word rest) as Hall.
  apply startswith_1 in Hcolon as [tail Htail]. rewrite Htail in Hrest.
  destruct (Str.take_while is_word rest) as [|x word]; [done|].
  apply Forall_cons in Hall as [Hx Hall].
  exists (blanks ++ sigil :: (x :: word) ++ [COLON]), tail.
  split.
  - subst line rest. rewrite <- !app_assoc. simpl. by rewrite <- app_assoc.
  - apply Re.acc_seq; [by apply accepts_star_class|].
    apply (Re.acc_seq _ _ [sigil]); [constructor; apply N.eqb_refl|].
    apply Re.acc_seq; [|constructor; apply N.eqb_refl].
    apply (Re.acc_seq _ _ [x] word); [by constructor|].
    by apply accepts_star_class.
Qed.

(** The start of the first marker line is an offset at which the pattern
    matches. *)
Lemma first_marker_line_matches sigil lines doc off j :
  Str.split Str.LF doc = lines ->
  first_marker_line sigil lines off = Some j ->
  exists i, j = (off + i)%nat /\ Re.matches_at (marker sigil) doc i.
Proof.
  revert doc off. induction lines as [|l ls IH]; intros doc off Hsplit; simpl.
  - discriminate.
  - destruct (split_inv Str.LF doc) as (l' & ls' & Hs & Hcases).
    rewrite Hsplit in Hs. injection Hs as <- <-.
    destruct (spec_marker_line unicode_alnum sigil l) eqn:Hl.
    + intros [= <-]. exists 0%nat. split; [lia|]. split; [lia|].
      rewrite drop_0. apply spec_marker_line_matches in Hl.
      destruct Hcases as [[_ ->]|(s' & -> & _)]; [done|].
      by apply matches_prefix_app.
    + destruct Hcases as [[-> ->]|(s' & -> & ->)]; [discriminate|].
      intros H. apply (IH s') in H as (i & -> & Hlen & Hm); [|done].
      exists (length l + 1 + i)%nat. split; [lia|]. split.
      * rewrite length_app. simpl. lia.
      * replace (length l + 1 + i)%nat with (length (l ++ [Str.LF]) + i)%nat
          by (rewrite length_app; simpl; lia).
        rewrite (cons_middle Str.LF l s'), app_assoc, drop_app_add. done.
Qed.

Lemma spec_split_point_matches sigil doc j :
  spec_split_point sigil doc = Some j -> Re.matches_at (marker sigil) doc j.
Proof.
  intros H. apply (first_marker_line_matches _ _ doc) in H as (i & -> & H);
    done.
Qed.

End MarkerFacts.

Section LineStart.

Variable unicode_alnum : char -> bool.

Local Abbreviation marker := (marker unicode_alnum).
Local Abbreviation first_marker_line := (first_marker_line unicode_alnum).
Local Abbreviation spec_split_point := (spec_split_point unicode_alnum).

(** The start of a marker line is the start of the comment or follows a
    newline. *)
Lemma first_marker_line_start sigil lines doc off j :
  Str.split Str.LF doc = lines ->
  first_marker_line sigil lines off = Some j ->
  exists i, j = (off + i)%nat
            /\ (i = 0%nat \/ doc !! (i - 1)%nat = Some Str.LF).
Proof.
  revert doc off. induction lines as [|l ls IH]; intros doc off Hsplit; simpl.
  - discriminate.
  - destruct (split_inv Str.LF doc) as (l' & ls' & Hs & Hcases).
    rewrite Hsplit in Hs. injection Hs as <- <-.
    destruct (spec_marker_line unicode_alnum sigil l).
    + intros [= <-]. exists 0%nat. split; [lia|by left].
    + destruct Hcases as [[-> ->]|(s' & -> & ->)]; [discriminate|].
      intros H. apply (IH s') in H as (i & -> & Hi); [|done].
      exists (length l + 1 + i)%nat. split; [lia|]. right.
      destruct Hi as [->|Hi].
      * replace (length l + 1 + 0 - 1)%nat with (length l + 0)%nat by lia.
        by rewrite lookup_app_r, Nat.add_comm, Nat.add_sub by lia.
      * destruct i as [|i]; simpl in Hi.
        -- replace (length l + 1 + 0 - 1)%nat with (length l) by lia.
           rewrite lookup_app_r by lia. by rewrite Nat.sub_diag.
        -- rewrite Nat.sub_0_r in Hi.
           replace (length l + 1 + S i - 1)%nat with (length l + S i)%nat
             by lia.
           rewrite lookup_app_r by lia.
           replace (length l + S i - length l)%nat with (S i) by lia.
           done.
Qed.

Lemma accepts_star_class_inv p w :
  Re.accepts (Re.Star (Re.Class p)) w -> Forall (fun c => p c = true) w.
Proof.
  intros H. remember (Re.Star (Re.Class p)) as e eqn:He.
  induction H as [| | | | | |r u v Hu _ Hv IH]; try discriminate.
  - constructor.
  - injection He as ->. apply accepts_class_inv in Hu as (c & -> & Hc).
    constructor; [done|]. by apply IH.
Qed.

(** A match of the marker pattern is a run of blanks followed by the
    sigil. *)
Lemma marker_match_inv sigil s :
  Re.matches_prefix (marker sigil) s ->
  exists blanks rest,
    s = blanks ++ sigil :: rest
    /\ Forall (fun c => Textwrap.is_blank c = true) blanks.
Proof.
  intros (w & rest & -> & Hw).
  apply accepts_seq_inv in Hw as (blanks & v & -> & Hblanks & Hv).
  apply accepts_seq_inv in Hv as (s1 & v' & -> & Hs1 & _).
  apply accepts_class_inv in Hs1 as (c & -> & Hc).
  apply N.eqb_eq in Hc. subst c.
  exists blanks, (v' ++ rest). split.
  - by rewrite <- !app_assoc.
  - by apply accepts_star_class_inv.
Qed.

(** When the sigil does not occur before the first marker line, the
    leftmost match is the start of that line. *)
Lemma search_first_marker_line sigil doc j :
  Textwrap.is_blank sigil = false ->
  spec_split_point sigil doc = Some j ->
  sigil ∉ take j doc ->
  Re.search (marker sigil) doc = Some j.
Proof.
  intros Hsigil Hj Hnin. apply search_leftmost.
  { by apply spec_split_point_matches. }
  intros i Hi [Hlen Hm].
  apply marker_match_inv in Hm as (blanks & rest & Hdrop & Hblanks).
  assert (Hdoc : doc = take i doc ++ blanks ++ sigil :: rest).
  { by rewrite <- Hdrop, take_drop. }
  assert (Hlt : (length (take i doc) = i)%nat) by (rewrite length_take; lia).
  destruct (decide (i + length blanks < j)%nat) as [Hp|Hp].
  - apply Hnin. rewrite Hdoc, app_assoc.
    rewrite take_app_ge by (rewrite length_app; lia).
    apply elem_of_app. right.
    destruct (j - length (take i doc ++ blanks))%nat as [|k] eqn:Hk.
    { rewrite length_app in Hk. lia. }
    simpl. apply elem_of_cons. by left.
  - apply (first_marker_line_start _ _ doc) in Hj as (j' & -> & Hstart);
      [|done].
    simpl in *. destruct Hstart as [->|Hlf]; [lia|].
    assert (blanks !! (j' - 1 - i)%nat = Some Str.LF) as Hb.
    { rewrite Hdoc in Hlf. rewrite lookup_app_r in Hlf by lia.
      rewrite Hlt in Hlf. rewrite lookup_app_l in Hlf by lia. done. }
    apply list_elem_of_lookup_2 in Hb.
    apply (proj1 (Forall_forall _ _) Hblanks) in Hb. discriminate.
Qed.

End LineStart.

Section ParseDoc.

Variable unicode_alnum : char -> bool.
Variable yaml_load : pystr -> result pyval.

Local Abbreviation _parse_doc := (_parse_doc yaml_load).

(** C2, as amended. For an absent comment the doc splitter returns the
    empty description and an empty mapping; for a comment in which the
    marker pattern matches at no offset it returns the whole comment,
    dedented and trimmed, with an empty mapping; for a comment in which
    the pattern matches, it cuts at the leftmost offset at which it
    matches, inside a line or not, and returns the dedented, trimmed
    prefix with the loaded dedented suffix, a parser error of the loader
    becoming a schema error; that offset is never after the start of the
    first marker line, and it is the start of that line when the sigil does
    not occur before it. *)
Theorem parse_doc_cuts_at_leftmost_match (doc : pystr) (mark : Re.regex) :
  _parse_doc None mark = inr ([], PDict [])
  /\ ((forall i, ~ Re.matches_at mark doc i) ->
      _parse_doc (Some doc) mark
      = inr (Str.strip (Textwrap.dedent doc), PDict []))
  /\ (forall i,
        Re.matches_at mark doc i ->
        (forall j, (j < i)%nat -> ~ Re.matches_at mark doc j) ->
        (forall data,
            yaml_load (Textwrap.dedent (drop i doc)) = inr data ->
            _parse_doc (Some doc) mark
            = inr (Str.strip (Textwrap.dedent (take i doc)), data))
        /\ (forall msg,
              yaml_load (Textwrap.dedent (drop i doc)) = inl (ParserError msg) ->
              _parse_doc (Some doc) mark = inl (SchemaError msg)))
  /\ (forall sigil j,
        spec_split_point unicode_alnum sigil doc = Some j ->
        exists i, (i <= j)%nat
                  /\ Re.search (marker unicode_alnum sigil) doc = Some i)
  /\ (forall sigil j,
        Textwrap.is_blank sigil = false ->
        spec_split_point unicode_alnum sigil doc = Some j ->
        sigil ∉ take j doc ->
        Re.search (marker unicode_alnum sigil) doc = Some j).
Proof.
  split; [done|]. split; [|split; [|split]].
  - intros Hno. simpl. by rewrite search_no_match.
  - intros i Hi Hmin. simpl. rewrite (search_leftmost _ _ _ Hi Hmin).
    split; [intros data -> | intros msg ->]; done.
  - intros sigil j Hj. apply search_complete.
    by apply spec_split_point_matches.
  - intros sigil j. apply search_first_marker_line.
Qed.

End ParseDoc.
(** Matching at an offset, by evaluation. *)
Lemma matches_at_compute r s i :
  Re.matches_at r s i
  <-> (i <=? length s)%nat && Re.match_prefix r (drop i s) = true.
Proof.
  unfold Re.matches_at. rewrite <- match_prefix_spec, andb_true_iff.
  by rewrite Nat.leb_le.
Qed.

(** ** Titles *)

Section Titles.

Variable unicode_alnum : char -> bool.
Variable yaml_load : pystr -> result pyval.
Variable world : Type.
Variable flask : Flask world.

Lemma split_once_spec sep s a b :
  Str.split_once sep s = (a, b) ->
  (sep ∉ a) /\ s = a ++ match b with
                      | None => []
                      | Some r => sep :: r
                      end.
Proof.
  revert a b. induction s as [|c s IH]; intros a b; simpl.
  - intros [= <- <-]. split; [apply not_elem_of_nil | done].
  - destruct (c =? sep) eqn:Hc.
    + intros [= <- <-]. apply N.eqb_eq in Hc. subst.
      split; [apply not_elem_of_nil | done].
    + destruct (Str.split_once sep s) as [a' b'] eqn:Hs.
      intros [= <- <-]. destruct (IH a' b' eq_refl) as [Hnin ->].
      apply N.eqb_neq in Hc. split; [|done].
      apply not_elem_of_cons. done.
Qed.

(** The first piece of [split(sep, maxsplit=1)] is the text before the
    first separator. *)
Lemma split_max1_head sep s :
  exists rest, s = hd [] (Str.split_max1 sep s) ++ rest
    /\ (sep ∉ hd [] (Str.split_max1 sep s))
    /\ (rest = [] \/ exists r, rest = sep :: r).
Proof.
  unfold Str.split_max1.
  destruct (Str.split_once sep s) as [a b] eqn:Hs.
  apply split_once_spec in Hs as [Hnin ->].
  destruct b as [r|]; simpl.
  - exists (sep :: r). repeat split; [done|]. right. by exists r.
  - exists []. repeat split; [done|]. by left.
Qed.

Lemma res_appends_entry (a : Fighting world) resource f :
  _resources (res unicode_alnum yaml_load flask a resource f).1 !! resource
  = Some (default [] (_resources a !! resource) ++ [entry_of resource f]).
Proof.
  unfold res.
  destruct (make_view _ _ _ f) as [e|v]; simpl.
  - by rewrite lookup_insert_eq.
  - unfold route.
    destruct (compile_rule _ _); [simpl; by rewrite lookup_insert_eq|].
    cbn [view_functions _resources].
    destruct (view_functions a !! _); simpl; by rewrite lookup_insert_eq.
Qed.

(** C8, as amended. The title recorded for a handler is taken from its
    documentation comment as written, not from the parsed description:
    the comment loses its leading and trailing newlines, the text before
    the first remaining newline is whitespace-stripped, and that line is
    the title when it has 20 characters or fewer, its first 20 characters
    followed by [...] when it is longer.  A handler without a comment has
    the empty title. *)
Theorem title_from_first_comment_line (doc : pystr) :
  get_title None = []
  /\ get_title (Some []) = []
  /\ (exists rest,
        Str.strip_lf doc = first_line doc ++ rest
        /\ (Str.LF ∉ first_line doc)
        /\ (rest = [] \/ exists r, rest = Str.LF :: r))
  /\ ((length (Str.strip (first_line doc)) <= 20)%nat ->
      get_title (Some doc) = Str.strip (first_line doc))
  /\ ((20 < length (Str.strip (first_line doc)))%nat ->
      get_title (Some doc) = take 20 (Str.strip (first_line doc)) ++ py "..."
      /\ length (get_title (Some doc)) = 23%nat)
  /\ (forall (a : Fighting world) resource f,
        _resources (res unicode_alnum yaml_load flask a resource f).1 !! resource
        = Some (default [] (_resources a !! resource)
                ++ [{| title := get_title (fn_doc f);
                       url := py "/" ++ resource ++ py "/" ++ fn_name f |}])).
Proof.
  split; [done|]. split; [done|].
  split; [apply split_max1_head|].
  assert (Ht : get_title (Some doc)
               = if (20 <? length (Str.strip (first_line doc)))%nat
                 then take 20 (Str.strip (first_line doc)) ++ DOTS
                 else Str.strip (first_line doc)).
  { by destruct doc. }
  split; [|split; [|apply res_appends_entry]]; intros Hlen; rewrite Ht.
  - destruct (Nat.ltb_spec 20 (length (Str.strip (first_line doc))));
      [lia|done].
  - destruct (Nat.ltb_spec 20 (length (Str.strip (first_line doc))));
      [|lia].
    split; [done|]. rewrite length_app, length_take.
    change (length DOTS) with 3%nat. lia.
Qed.

End Titles.

(** ** Plain rules *)

Section Rules.

Variable world : Type.
Variable flask : Flask world.

(** Rules added later do not change what a path is found under. *)
Lemma find_rule_app rules extra path target :
  find_rule rules path = Some target ->
  find_rule (rules ++ extra) path = Some target.
Proof.
  induction rules as [|[rl target'] rules IH]; simpl; [discriminate|].
  destruct (is_literal rl); [|done].
  destruct (bool_decide (rl = path)); [done|].
  by destruct (bool_decide (rl = path ++ [SLASH])).
Qed.



(** Only a path that is plain text is found. *)
Lemma find_rule_literal rules path target :
  find_rule rules path = Some target -> is_literal path = true.
Proof.
  induction rules as [|[rl target'] rules IH]; simpl; [discriminate|].
  destruct (is_literal rl) eqn:Hrule; [|done].
  destruct (bool_decide_reflect (rl = path)) as [<-|_]; [done|].
  by destruct (bool_decide (rl = path ++ [SLASH])).
Qed.

(** A rule that is not plain text is passed over. *)
Lemma find_rule_not_literal rl target rules path :
  is_literal rl = false ->
  find_rule ((rl, target) :: rules) path = find_rule rules path.
Proof. intros H. simpl. by rewrite H. Qed.

Lemma static_rule_not_literal prefix :
  is_literal (prefix ++ py "/<path:filename>") = false.
Proof.
  unfold is_literal. rewrite (bool_decide_eq_true_2 (LANGLE ∈ _)); [done|].
  apply elem_of_app. right.
  apply (@bool_decide_unpack _ _). vm_compute. exact I.
Qed.

(** The rule of the static files is the path of no request. *)
Lemma find_rule_static path : find_rule (static_rules flask) path = None.
Proof.
  unfold static_rules. destruct (static_url_path flask) as [prefix|]; [|done].
  by rewrite find_rule_not_literal by apply static_rule_not_literal.
Qed.


Lemma static_views_doc : static_views flask !! py "_doc" = None.
Proof.
  unfold static_views. destruct (static_url_path flask); [|done].
  by rewrite lookup_insert_ne.
Qed.

End Rules.

(** ** Building a view *)

Section MakeView.

Variable unicode_alnum : char -> bool.
Variable yaml_load : pystr -> result pyval.
Variable origin_markdown : pystr -> list pystr -> pystr.
Variable json_dumps : pyval -> pystr.
Variable tmpl_render : document -> pystr.
Variable world : Type.
Variable flask : Flask world.

Local Abbreviation RE_DIRECTIVE := (RE_DIRECTIVE unicode_alnum).
Local Abbreviation parse_directive := (parse_directive unicode_alnum yaml_load).
Local Abbreviation make_view := (make_view unicode_alnum yaml_load).
Local Abbreviation res := (res unicode_alnum yaml_load flask).
Local Abbreviation route_view :=
  (route_view origin_markdown json_dumps tmpl_render).
Local Abbreviation dispatch := (dispatch origin_markdown json_dumps tmpl_render flask).

(** A name missing from the registry stops the loop, whatever the
    factories before it do. *)
Lemma apply_directives_unknown (registry : gmap pystr (factory world))
    api (f : handler world) (directives : odict) name :
  name ∈ map fst directives ->
  registry !! name = None ->
  exists e, apply_directives registry api f directives = inl e.
Proof.
  revert f. induction directives as [|[d meta] ds IH]; intros f Hin Hnone.
  - by apply elem_of_nil in Hin.
  - simpl in Hin. simpl.
    destruct (registry !! d) as [make|] eqn:Hd; [|by eexists].
    apply elem_of_cons in Hin as [->|Hin].
    { congruence. }
    destruct (make f meta api) as [e|f']; simpl; [by eexists|].
    by apply IH.
Qed.

(** When the factories before it succeed, the error is the [KeyError] of
    the missing name. *)
Lemma apply_directives_first_unknown (registry : gmap pystr (factory world))
    api (f : handler world) name meta (rest : odict) :
  registry !! name = None ->
  apply_directives registry api f ((name, meta) :: rest) = inl (KeyError name).
Proof. intros H. simpl. by rewrite H. Qed.

Lemma dispatch_ignores_registry (a : Fighting world) registry path req w :
  dispatch (with_directives a registry) path req w = dispatch a path req w.
Proof.
  unfold dispatch. cbn [with_directives url_map view_functions].
  destruct (find_rule _ _) as [[methods endpoint]|].
  - destruct (bool_decide _); [|done].
    destruct (view_functions a !! endpoint) as [[|desc ds f|]|]; done.
  - by destruct (url_match _ _ _ _).
Qed.

(** C3. A handler whose directive block names a directive the registry
    does not hold cannot be registered: the decorator raises while the view
    is built (a [KeyError] of that name when it is the first directive of
    the block), and no rule and no view function is added.  Serving a
    request never consults the registry: replacing it changes no answer. *)
Theorem unknown_directive_fails_at_registration
    (a : Fighting world) resource (f : pyfunc world) desc directives name :
  parse_directive (fn_doc f) = inr (desc, directives) ->
  name ∈ map fst directives ->
  _directives a !! name = None ->
  (exists e, (res a resource f).2 = inl e
             /\ (forall meta rest, directives = (name, meta) :: rest ->
                                   e = KeyError name))
  /\ url_map (res a resource f).1 = url_map a
  /\ view_functions (res a resource f).1 = view_functions a
  /\ (forall (b : Fighting world) registry path req w,
        dispatch (with_directives b registry) path req w
        = dispatch b path req w).
Proof.
  intros Hdoc Hin Hnone.
  unfold res, make_view. rewrite Hdoc. simpl.
  match goal with
  | |- context [apply_directives ?r ?c ?h directives] =>
      destruct (apply_directives_unknown r c h directives name Hin Hnone)
        as [e He];
      pose proof (apply_directives_first_unknown r c h name) as Hfirst;
      rewrite He in *
  end.
  simpl. split; [|split; [done|split; [done|]]].
  - exists e. split; [done|]. intros meta rest ->.
    specialize (Hfirst meta rest Hnone). congruence.
  - apply dispatch_ignores_registry.
Qed.

(** C10. A handler whose comment is absent, or holds no match of the
    directive pattern, is registered with an empty directive mapping: the
    loop that applies directives returns the handler it was given, the view
    holds the original function, and a POST calls it without arguments and
    answers with what it returns, a response object as it is and any other
    value as JSON, no validator in between. *)
Theorem no_block_no_wrapping (a : Fighting world) (f : pyfunc world) :
  (fn_doc f = None
   \/ exists doc, fn_doc f = Some doc
                  /\ forall i, ~ Re.matches_at RE_DIRECTIVE doc i) ->
  exists desc,
    parse_directive (fn_doc f) = inr (desc, [])
    /\ apply_directives (_directives a) (context_of a) (fn_call f) []
       = inr (fn_call f)
    /\ make_view a f = inr (RouteView desc [] (fn_call f))
    /\ (forall req w,
          method req = POST ->
          route_view desc [] (fn_call f) req w
          = match fn_call f req [] w with
            | (w', inl e) => (w', inl e)
            | (w', inr (Resp resp)) => (w', inr resp)
            | (w', inr r) => (w', inr (jsonify (to_val r)))
            end).
Proof.
  intros Hdoc.
  assert (exists desc, parse_directive (fn_doc f) = inr (desc, []))
    as [desc Hparse].
  { unfold parse_directive.
    destruct Hdoc as [->|(doc & -> & Hno)]; simpl; [by eexists|].
    rewrite search_no_match; [|done]. by eexists. }
  exists desc. split; [done|]. split; [done|]. split.
  - unfold make_view. by rewrite Hparse.
  - intros req w Hpost. unfold route_view. rewrite Hpost.
    rewrite bool_decide_eq_true_2; [|done].
    unfold mbind, io_bind.
    destruct (fn_call f req [] w) as [w' [e|[v|fields|resp]]]; done.
Qed.

End MakeView.

(** ** The built-in directives *)

Section Directives.

Variable origin_markdown : pystr -> list pystr -> pystr.
Variable json_dumps : pyval -> pystr.
Variable tmpl_render : document -> pystr.
Variable world : Type.

Local Abbreviation route_view :=
  (route_view origin_markdown json_dumps tmpl_render).

Lemma str_keys_to_val (kvs : odict) :
  str_keys (map (fun kv => (PStr kv.1, kv.2)) kvs) = Some kvs.
Proof.
  induction kvs as [|[k v] kvs IH]; simpl; [done|]. by rewrite IH.
Qed.

Lemma kwargs_of_to_val (kvs : odict) :
  kwargs_of (Val (OrderedDict.to_val kvs)) = inr kvs.
Proof. simpl. by rewrite str_keys_to_val. Qed.

Lemma abort_aborted {A : Type} message : @abort A message = inl (aborted message).
Proof. done. Qed.

(** C4. The handler the input directive returns validates the request
    payload first.  If the validator raises [Invalid], the request is
    aborted with a 400 response whose body is the message of the error,
    whatever the original handler is and with the world untouched: the
    handler is not called.  If the validator returns a mapping, the
    original handler is called with the entries of that mapping as keyword
    arguments, and its outcome is the outcome of the request. *)
Theorem input_directive_validates (f : handler world) meta api
    (validate : validator) req w :
  ctx_schema_parser api meta = inr validate ->
  input_directive f meta api = inr (input_view f validate)
  /\ (forall raw msg,
        get_request_data req = inr raw ->
        validate raw = inl (Invalid msg) ->
        input_view f validate req [] w = (w, inl (aborted msg))
        /\ (forall g : handler world,
              input_view g validate req [] w = (w, inl (aborted msg)))
        /\ finalize (inl (aborted msg))
           = {| status_code := 400; mimetype := APPLICATION_JSON;
                data := Json (PStr msg) |})
  /\ (forall raw (kvs : odict),
        get_request_data req = inr raw ->
        validate raw = inr (Val (OrderedDict.to_val kvs)) ->
        input_view f validate req [] w = f req kvs w).
Proof.
  intros Hparse. split; [|split].
  - unfold input_directive. by rewrite Hparse.
  - intros raw msg Hraw Hbad.
    assert (forall g : handler world,
               input_view g validate req [] w = (w, inl (aborted msg))) as Hall.
    { intros g. unfold input_view, mbind, io_bind, lift.
      rewrite Hraw. simpl. by rewrite Hbad. }
    split; [apply Hall|]. split; [apply Hall|done].
  - intros raw kvs Hraw Hok.
    unfold input_view, mbind, io_bind, lift. rewrite Hraw. simpl.
    rewrite Hok. simpl. by rewrite str_keys_to_val.
Qed.

(** C5. The handler the output directive returns calls the original
    handler with the arguments it was given and passes what it returns to
    the validator: the validated value is the result, and an [Invalid] of
    the validator is raised as it is.  Nothing catches it, neither the view
    of the route nor an input directive wrapped around it, so the request
    ends as a server fault, status 500, not as a 400. *)
Theorem output_directive_validates (f : handler world) meta api
    (validate : validator) req kw w w' r :
  ctx_schema_parser api meta = inr validate ->
  f req kw w = (w', inr r) ->
  output_directive f meta api = inr (output_view f validate)
  /\ output_view f validate req kw w = (w', validate r)
  /\ (forall msg,
        validate r = inl (Invalid msg) ->
        output_view f validate req kw w = (w', inl (Invalid msg))
        /\ (forall desc directives,
              method req = POST -> kw = [] ->
              route_view desc directives (output_view f validate) req w
              = (w', inl (Invalid msg)))
        /\ (forall (check : validator) raw,
              get_request_data req = inr raw ->
              check raw = inr (Val (OrderedDict.to_val kw)) ->
              input_view (output_view f validate) check req [] w
              = (w', inl (Invalid msg)))
        /\ status_code (finalize (inl (Invalid msg))) = 500%Z).
Proof.
  intros Hparse Hf.
  assert (output_view f validate req kw w = (w', validate r)) as Hview.
  { unfold output_view, mbind, io_bind, lift. by rewrite Hf. }
  split; [|split; [done|]].
  - unfold output_directive. by rewrite Hparse.
  - intros msg Hbad. rewrite Hbad in Hview. split; [done|].
    split; [|split; [|done]].
    + intros desc directives Hpost ->. unfold route_view.
      rewrite Hpost, bool_decide_eq_true_2; [|done].
      unfold mbind at 1. unfold io_bind at 1. by rewrite Hview.
    + intros check raw Hraw Hcheck.
      unfold input_view. unfold mbind at 1. unfold io_bind at 1.
      unfold lift at 1. rewrite Hraw. simpl. rewrite Hcheck. simpl.
      by rewrite str_keys_to_val.
Qed.

(** C6, as amended. Extracting the request data of a request of
    mimetype application/json aborts with status 400 and the message
    [Invalid JSON content] when the body does not parse, and with the
    message [JSON content must be object] when it parses to anything but
    an object; an object is returned as it is, and for any other mimetype
    the form fields are returned.  The extraction is the first step of the
    handler the input directive returns: when it aborts, neither the
    validator nor the original handler runs. *)
Theorem bad_json_aborts_extraction (req : request) :
  (request_mimetype req = APPLICATION_JSON ->
   (forall e, get_json req = inl e ->
              get_request_data req = inl (aborted (py "Invalid JSON content")))
   /\ (forall v, get_json req = inr v ->
                 (forall kvs, v <> PDict kvs) ->
                 get_request_data req
                 = inl (aborted (py "JSON content must be object")))
   /\ (forall kvs, get_json req = inr (PDict kvs) ->
                   get_request_data req = inr (Val (PDict kvs))))
  /\ (request_mimetype req <> APPLICATION_JSON ->
      get_request_data req = inr (Form (form req)))
  /\ (forall message (f : handler world) (validate : validator) w,
        get_request_data req = inl (aborted message) ->
        input_view f validate req [] w = (w, inl (aborted message))
        /\ status_code (finalize (inl (aborted message))) = 400%Z).
Proof.
  split; [|split].
  - intros Hjson. unfold get_request_data.
    rewrite bool_decide_eq_true_2; [|done].
    split; [|split].
    + by intros e ->.
    + intros v -> Hv. destruct v as [| | | | |kvs|]; try done.
      by destruct (Hv kvs).
    + by intros kvs ->.
  - intros Hother. unfold get_request_data.
    by rewrite bool_decide_eq_false_2.
  - intros message f validate w Hraw. split; [|done].
    unfold input_view, mbind, io_bind, lift. by rewrite Hraw.
Qed.

End Directives.

(** ** Documentation: format and order *)

Section Documentation.

Variable unicode_alnum : char -> bool.
Variable yaml_load : pystr -> result pyval.
Variable origin_markdown : pystr -> list pystr -> pystr.
Variable json_dumps : pyval -> pystr.
Variable tmpl_render : document -> pystr.
Variable world : Type.
Variable flask : Flask world.

Local Abbreviation render := (render origin_markdown json_dumps tmpl_render).
Local Abbreviation _doc := (_doc origin_markdown json_dumps tmpl_render).
Local Abbreviation route_view :=
  (route_view origin_markdown json_dumps tmpl_render).
Local Abbreviation dispatch := (dispatch origin_markdown json_dumps tmpl_render flask).
Local Abbreviation init := (init unicode_alnum yaml_load flask).






End Documentation.

(** ** The resource table *)

Section Resources.

Variable unicode_alnum : char -> bool.
Variable yaml_load : pystr -> result pyval.
Variable origin_markdown : pystr -> list pystr -> pystr.
Variable json_dumps : pyval -> pystr.
Variable tmpl_render : document -> pystr.
Variable world : Type.
Variable flask : Flask world.

Local Abbreviation res := (res unicode_alnum yaml_load flask).
Local Abbreviation register_all := (register_all unicode_alnum yaml_load flask).
Local Abbreviation template_context :=
  (template_context origin_markdown json_dumps).

Lemma leb_total s t : Str.leb s t = true \/ Str.leb t s = true.
Proof.
  revert t. induction s as [|a s IH]; intros [|b t]; simpl; auto.
  destruct (N.lt_trichotomy a b) as [Hlt|[->|Hgt]].
  - left. apply orb_true_iff. left. by apply N.ltb_lt.
  - rewrite N.ltb_irrefl, N.eqb_refl. simpl. apply IH.
  - right. apply orb_true_iff. left. by apply N.ltb_lt.
Qed.

Lemma leb_trans s t u :
  Str.leb s t = true -> Str.leb t u = true -> Str.leb s u = true.
Proof.
  revert t u. induction s as [|a s IH]; intros [|b t] [|c u]; simpl; try done.
  rewrite !orb_true_iff, !andb_true_iff, !N.ltb_lt, !N.eqb_eq.
  intros [Hab|[-> Hst]] [Hbc|[-> Htu]].
  - left. lia.
  - by left.
  - by left.
  - right. split; [done|]. by eapply IH.
Qed.

#[local] Instance key_le_total {V : Type} : Total (@key_le V).
Proof.
  intros x y. unfold key_le.
  destruct (leb_total x.1 y.1) as [H|H]; rewrite H; [by left | by right].
Qed.

#[local] Instance key_le_trans {V : Type} : Transitive (@key_le V).
Proof.
  intros x y z. unfold key_le. intros Hxy%Is_true_true Hyz%Is_true_true.
  apply Is_true_true. by eapply leb_trans.
Qed.

(** Sorted on distinct names is strictly sorted. *)
Lemma sorted_distinct_strict {V : Type} (l : list (pystr * V)) :
  StronglySorted key_le l -> NoDup l.*1 -> StronglySorted key_lt l.
Proof.
  induction 1 as [|x l Hl IH Hx]; intros Hnd; [constructor|].
  rewrite fmap_cons in Hnd. apply NoDup_cons in Hnd as [Hnin Hnd].
  constructor; [by apply IH|].
  apply Forall_forall. intros y Hy. split.
  - by apply (proj1 (Forall_forall _ _) Hx).
  - intros Heq. apply Hnin. rewrite Heq. apply list_elem_of_fmap.
    by exists y.
Qed.

Lemma res_other_resource (a : Fighting world) resource f other :
  resource <> other ->
  _resources (res a resource f).1 !! other = _resources a !! other.
Proof.
  intros Hne. unfold res.
  destruct (make_view _ _ _ f) as [e|v]; simpl.
  - by rewrite lookup_insert_ne.
  - unfold route.
    destruct (compile_rule _ _); [simpl; by rewrite lookup_insert_ne|].
    cbn [view_functions _resources].
    destruct (view_functions a !! _); simpl; by rewrite lookup_insert_ne.
Qed.

(** Each call appends one entry to the list of its resource. *)
Lemma register_all_resources (calls : list (pystr * pyfunc world))
    (a : Fighting world) resource :
  _resources (register_all a calls) !! resource
  = match registered_for resource calls with
    | [] => _resources a !! resource
    | fs => Some (default [] (_resources a !! resource)
                  ++ map (entry_of resource) fs)
    end.
Proof.
  revert a. induction calls as [|[r f] calls IH]; intros a; [done|].
  unfold register_all, registered_for in *. simpl. rewrite IH. clear IH.
  rewrite filter_cons. simpl. destruct (decide (r = resource)) as [->|Hne].
  - rewrite res_appends_entry. simpl.
    destruct (map snd (filter _ calls)); simpl.
    + done.
    + by rewrite <- app_assoc.
  - by rewrite res_other_resource.
Qed.

(** C9. The resources handed to the document template are those of the
    route table, each with its route list, in strictly increasing order of
    their names; the route list of a resource holds, after the entries it
    had, one entry per registration under that resource, in the order of
    the registrations; and the JSON form is given the same lists. *)
Theorem resources_sorted_routes_in_order (a : Fighting world)
    (calls : list (pystr * pyfunc world)) desc shared directives :
  StronglySorted key_lt
    (doc_resources
       (template_context desc shared
          (Some (_resources (register_all a calls))) directives))
  /\ (forall resource entries,
        (resource, entries)
        ∈ doc_resources
            (template_context desc shared
               (Some (_resources (register_all a calls))) directives)
        <-> _resources (register_all a calls) !! resource = Some entries)
  /\ (forall resource,
        _resources (register_all a calls) !! resource
        = match registered_for resource calls with
          | [] => _resources a !! resource
          | fs => Some (default [] (_resources a !! resource)
                        ++ map (entry_of resource) fs)
          end)
  /\ (forall resource entries,
        _resources (register_all a calls) !! resource = Some entries ->
        exists items,
          resources_val (_resources (register_all a calls)) = PDict items
          /\ (PStr resource, PList (map entry_val entries)) ∈ items).
Proof.
  split; [|split; [|split]].
  - simpl. unfold sorted_by_key. apply sorted_distinct_strict.
    + apply StronglySorted_merge_sort; apply _.
    + rewrite merge_sort_Permutation. apply NoDup_fst_map_to_list.
  - intros resource entries. simpl. unfold sorted_by_key.
    rewrite merge_sort_Permutation. apply elem_of_map_to_list.
  - intros resource. apply register_all_resources.
  - intros resource entries Hlookup. eexists. split; [reflexivity|].
    apply elem_of_map_to_list in Hlookup.
    apply list_elem_of_In, (in_map (fun kv => (PStr kv.1, PList (map entry_val kv.2)))
                        _ (resource, entries)).
    by apply list_elem_of_In.
Qed.

End Resources.

(** ** More on titles *)

Section TitleFacts.

Lemma elem_of_rev (c : char) s : c ∈ rev s <-> c ∈ s.
Proof. rewrite !list_elem_of_In. symmetry. apply in_rev. Qed.

Lemma elem_of_take_sub (c : char) n s : c ∈ take n s -> c ∈ s.
Proof.
  intros H. rewrite <- (take_drop n s). apply elem_of_app. by left.
Qed.

Lemma drop_while_suffix p s : exists w, s = w ++ Str.drop_while p s.
Proof.
  induction s as [|c s [w IH]]; simpl; [by exists []|].
  destruct (p c); [|by exists []]. exists (c :: w). simpl. by rewrite <- IH.
Qed.

Lemma drop_while_head p s c r : Str.drop_while p s = c :: r -> p c = false.
Proof.
  induction s as [|x s IH]; simpl; [discriminate|].
  destruct (p x) eqn:Hx; [done|]. by intros [= <- _].
Qed.

Lemma drop_while_keep p c r : p c = false -> Str.drop_while p (c :: r) = c :: r.
Proof. intros H. simpl. by rewrite H. Qed.

(** A text that neither starts nor ends with a character of the set is
    left as it is. *)
Lemma strip_with_keep p c r d r' :
  p c = false -> rev (c :: r) = d :: r' -> p d = false ->
  Str.strip_with p (c :: r) = c :: r.
Proof.
  intros Hc Hrev Hd. unfold Str.strip_with, Str.lstrip, Str.rstrip.
  rewrite (drop_while_keep _ _ _ Hc), Hrev, (drop_while_keep _ _ _ Hd).
  by rewrite <- Hrev, rev_involutive.
Qed.

(** What [strip] returns is empty, or starts and ends outside the set. *)
Lemma strip_with_ends p s :
  Str.strip_with p s = []
  \/ exists c r d r',
       Str.strip_with p s = c :: r /\ p c = false
       /\ rev (c :: r) = d :: r' /\ p d = false.
Proof.
  unfold Str.strip_with, Str.lstrip, Str.rstrip.
  set (u := Str.drop_while p s).
  destruct (Str.drop_while p (rev u)) as [|d v] eqn:Hv; [by left|].
  right. pose proof (drop_while_head _ _ _ _ Hv) as Hd.
  destruct (drop_while_suffix p (rev u)) as [w Hw]. rewrite Hv in Hw.
  assert (Hu : u = rev (d :: v) ++ rev w).
  { by rewrite <- rev_app_distr, <- Hw, rev_involutive. }
  destruct (rev (d :: v)) as [|c r] eqn:Hr.
  { apply (f_equal (@length _)) in Hr. rewrite length_rev in Hr. done. }
  exists c, r, d, v. split; [done|]. split.
  - subst u. simpl in Hu. by apply (drop_while_head p s c (r ++ rev w)).
  - by rewrite <- Hr, rev_involutive.
Qed.

Lemma strip_with_idemp p s :
  Str.strip_with p (Str.strip_with p s) = Str.strip_with p s.
Proof.
  destruct (strip_with_ends p s) as [->|(c & r & d & r' & -> & Hc & Hrev & Hd)];
    [done|]. by eapply strip_with_keep.
Qed.

(** Stripping only removes characters. *)
Lemma strip_with_sub p s c : c ∈ Str.strip_with p s -> c ∈ s.
Proof.
  unfold Str.strip_with, Str.lstrip, Str.rstrip. intros Hc.
  rewrite elem_of_rev in Hc.
  destruct (drop_while_suffix p (rev (Str.drop_while p s))) as [w Hw].
  assert (c ∈ rev (Str.drop_while p s)) as Hc'.
  { rewrite Hw. apply elem_of_app. by right. }
  rewrite elem_of_rev in Hc'.
  destruct (drop_while_suffix p s) as [w' Hw']. rewrite Hw'.
  apply elem_of_app. by right.
Qed.

Lemma strip_with_length p s : (length (Str.strip_with p s) <= length s)%nat.
Proof.
  unfold Str.strip_with, Str.lstrip, Str.rstrip. rewrite length_rev.
  destruct (drop_while_suffix p (rev (Str.drop_while p s))) as [w Hw].
  destruct (drop_while_suffix p s) as [w' Hw'].
  apply (f_equal (@length _)) in Hw, Hw'.
  rewrite length_app in Hw, Hw'. rewrite length_rev in Hw. lia.
Qed.

Lemma strip_with_none p s :
  (forall c, c ∈ s -> p c = false) -> Str.strip_with p s = s.
Proof.
  intros Hs. destruct s as [|c r]; [done|].
  destruct (rev (c :: r)) as [|d r'] eqn:Hrev.
  { apply (f_equal (@length _)) in Hrev. rewrite length_rev in Hrev. done. }
  eapply strip_with_keep; [|done|].
  - apply Hs. by left.
  - apply Hs. apply elem_of_rev. rewrite Hrev. by left.
Qed.

Lemma split_once_none sep s : sep ∉ s -> Str.split_once sep s = (s, None).
Proof.
  induction s as [|c s IH]; simpl; [done|].
  intros [Hne Hs]%not_elem_of_cons.
  destruct (c =? sep) eqn:Hc; [apply N.eqb_eq in Hc; congruence|].
  by rewrite IH.
Qed.

(** A text without a newline is its own first line. *)
Lemma first_line_one_line s : Str.LF ∉ s -> first_line s = s.
Proof.
  intros Hs. unfold first_line, Str.strip_lf.
  rewrite strip_with_none.
  - unfold Str.split_max1. by rewrite split_once_none.
  - intros c Hc. unfold Str.is_lf. apply N.eqb_neq. intros ->. done.
Qed.

Lemma first_line_no_lf doc : Str.LF ∉ first_line doc.
Proof.
  destruct (split_max1_head Str.LF (Str.strip_lf doc)) as (rest & _ & H & _).
  done.
Qed.

Lemma get_title_unfold doc :
  get_title (Some doc)
  = if (20 <? length (Str.strip (first_line doc)))%nat
    then take 20 (Str.strip (first_line doc)) ++ DOTS
    else Str.strip (first_line doc).
Proof. by destruct doc. Qed.

Lemma title_no_lf doc : Str.LF ∉ get_title doc.
Proof.
  destruct doc as [doc|]; [|apply not_elem_of_nil].
  rewrite get_title_unfold.
  assert (Str.LF ∉ Str.strip (first_line doc)) as Hline.
  { intros H%strip_with_sub. by apply (first_line_no_lf doc). }
  destruct (20 <? _)%nat; [|done].
  intros [H|H]%elem_of_app.
  - apply Hline. by eapply elem_of_take_sub.
  - vm_compute in H. by repeat (apply elem_of_cons in H as [H|H]; [done|]);
      apply elem_of_nil in H.
Qed.

Lemma title_stripped doc : Str.strip (get_title doc) = get_title doc.
Proof.
  destruct doc as [doc|]; [|done]. rewrite get_title_unfold.
  destruct (Nat.ltb_spec 20 (length (Str.strip (first_line doc)))) as [Hlong|_];
    [|apply strip_with_idemp].
  destruct (strip_with_ends Str.isspace (first_line doc))
    as [Hnil|(c & r & d & r' & Hline & Hc & _)];
    unfold Str.strip in *.
  { rewrite Hnil in Hlong. simpl in Hlong. lia. }
  rewrite Hline. simpl.
  eapply (strip_with_keep _ c (take 19 r ++ DOTS) 46 (rev (c :: take 19 r ++ [46; 46])));
    [done| |done].
  change DOTS with ([46; 46] ++ [46]).
  rewrite app_assoc, app_comm_cons. by rewrite rev_app_distr.
Qed.

(** X1. A title is one line of at most 23 characters without white space
    around it: it holds no newline, and stripping it changes nothing. *)
Theorem title_is_short_single_line (doc : option pystr) :
  (length (get_title doc) <= 23)%nat
  /\ (Str.LF ∉ get_title doc)
  /\ Str.strip (get_title doc) = get_title doc.
Proof.
  split; [|split; [apply title_no_lf | apply title_stripped]].
  destruct doc as [doc|]; [|simpl; lia]. rewrite get_title_unfold.
  destruct (Nat.ltb_spec 20 (length (Str.strip (first_line doc)))); [|lia].
  rewrite length_app, length_take. change (length DOTS) with 3%nat. lia.
Qed.

(** X2. Taking the title of a title gives it back: [get_title] is
    idempotent. *)
Theorem get_title_idempotent (doc : option pystr) :
  get_title (Some (get_title doc)) = get_title doc.
Proof.
  rewrite get_title_unfold.
  rewrite (first_line_one_line _ (title_no_lf doc)), title_stripped.
  destruct doc as [doc|]; [|done].
  rewrite get_title_unfold.
  destruct (Nat.ltb_spec 20 (length (Str.strip (first_line doc)))) as [Hlong|Hshort].
  - assert (length (take 20 (Str.strip (first_line doc))) = 20%nat) as Hlen.
    { rewrite length_take. lia. }
    rewrite length_app, Hlen. simpl.
    by rewrite take_app_length'.
  - destruct (Nat.ltb_spec 20 (length (Str.strip (first_line doc)))); [lia|done].
Qed.

End TitleFacts.

(** ** More on the parsers *)

Section ParseFacts.

Variable unicode_alnum : char -> bool.
Variable yaml_load : pystr -> result pyval.

Local Abbreviation marker := (marker unicode_alnum).
Local Abbreviation RE_DIRECTIVE := (RE_DIRECTIVE unicode_alnum).
Local Abbreviation RE_SHARED := (RE_SHARED unicode_alnum).
Local Abbreviation _parse_doc := (_parse_doc yaml_load).
Local Abbreviation parse_directive := (parse_directive unicode_alnum yaml_load).
Local Abbreviation parse_shared := (parse_shared unicode_alnum yaml_load).

(** The pattern cannot match in a text that lacks the sigil. *)
Lemma no_sigil_no_match sigil doc :
  sigil ∉ doc -> Re.search (marker sigil) doc = None.
Proof.
  intros Hnin. apply search_no_match. intros i [_ Hm].
  apply marker_match_inv in Hm as (blanks & rest & Hdrop & _).
  apply Hnin. rewrite <- (take_drop i doc), Hdrop.
  apply elem_of_app. right. apply elem_of_app. right. by left.
Qed.

(** X3. A comment in which the dollar sign does not occur has no
    directives, and one in which the at sign does not occur has no shared
    entries: the whole comment, dedented and trimmed, is the description,
    and the loader is not consulted. *)
Theorem comment_without_sigil_is_prose (doc : pystr) :
  (DOLLAR ∉ doc ->
   parse_directive (Some doc)
   = inr (Str.strip (Textwrap.dedent doc), []))
  /\ (AT ∉ doc ->
      parse_shared (Some doc)
      = inr (Str.strip (Textwrap.dedent doc), [])).
Proof.
  split; intros Hnin.
  - unfold parse_directive. simpl.
    unfold RE_DIRECTIVE. by rewrite no_sigil_no_match.
  - unfold parse_shared. simpl.
    unfold RE_SHARED. by rewrite no_sigil_no_match.
Qed.

Lemma drop_take_prefix (s : pystr) i j :
  (j <= i)%nat -> drop j s = drop j (take i s) ++ drop i s.
Proof.
  intros Hji. destruct (decide (i <= length s)%nat) as [Hi|Hi].
  - rewrite <- (take_drop i s) at 1.
    rewrite drop_app_le; [done|]. rewrite length_take. lia.
  - rewrite take_ge, (drop_ge s i) by lia. by rewrite app_nil_r.
Qed.

(** The text before the leftmost match holds no match. *)
Lemma search_prefix_none sigil doc i :
  Re.search (marker sigil) doc = Some i ->
  Re.search (marker sigil) (take i doc) = None.
Proof.
  intros Hs. destruct (search_some _ _ _ Hs) as [[Hlen _] Hmin].
  apply search_no_match. intros j [Hj Hm].
  rewrite length_take in Hj.
  destruct (decide (j < i)%nat) as [Hlt|Hge].
  - apply (Hmin j Hlt). split; [lia|].
    rewrite (drop_take_prefix doc i j) by lia. by apply matches_prefix_app.
  - rewrite drop_ge in Hm by (rewrite length_take; lia).
    apply match_prefix_spec in Hm. simpl in Hm. discriminate.
Qed.

(** X4. The description of a comment is that of its prose part alone:
    cutting the comment at the place [_parse_doc] cuts it and parsing what
    is before the cut gives the same description and no data, for the
    directive and the shared pattern. *)
Theorem description_is_that_of_the_prose (sigil : char) (doc : pystr) i data :
  Re.search (marker sigil) doc = Some i ->
  yaml_load (Textwrap.dedent (drop i doc)) = inr data ->
  exists desc,
    _parse_doc (Some doc) (marker sigil) = inr (desc, data)
    /\ _parse_doc (Some (take i doc)) (marker sigil) = inr (desc, PDict [])
    /\ Re.match_prefix (marker sigil) (drop i doc) = true.
Proof.
  intros Hs Hload. exists (Str.strip (Textwrap.dedent (take i doc))).
  simpl. rewrite Hs, Hload, (search_prefix_none _ _ _ Hs).
  split; [done|]. split; [done|].
  apply match_prefix_spec, (search_some _ _ _ Hs).
Qed.

End ParseFacts.
Section ParseResults.

Variable unicode_alnum : char -> bool.
Variable yaml_load : pystr -> result pyval.

Local Abbreviation RE_DIRECTIVE := (RE_DIRECTIVE unicode_alnum).
Local Abbreviation RE_SHARED := (RE_SHARED unicode_alnum).
Local Abbreviation _parse_doc := (_parse_doc yaml_load).
Local Abbreviation parse_directive := (parse_directive unicode_alnum yaml_load).
Local Abbreviation parse_shared := (parse_shared unicode_alnum yaml_load).

Lemma set_keys_elem k v (d : odict) n :
  n ∈ map fst (OrderedDict.set k v d) <-> n = k \/ n ∈ map fst d.
Proof.
  induction d as [|[k' v'] d IH]; simpl.
  - rewrite elem_of_cons, elem_of_nil. tauto.
  - destruct (decide (k' = k)) as [->|Hne]; simpl.
    + rewrite !elem_of_cons. tauto.
    + rewrite !elem_of_cons, IH. tauto.
Qed.

Lemma set_keys_NoDup k v (d : odict) :
  NoDup (map fst d) -> NoDup (map fst (OrderedDict.set k v d)).
Proof.
  induction d as [|[k' v'] d IH]; simpl; intros Hnd.
  - apply NoDup_cons. split; [apply not_elem_of_nil | constructor].
  - apply NoDup_cons in Hnd as [Hnin Hnd].
    destruct (decide (k' = k)) as [->|Hne]; simpl.
    + by apply NoDup_cons.
    + apply NoDup_cons. split; [|by apply IH].
      rewrite set_keys_elem. intros [->|Hin]; done.
Qed.

(** What the loop has stored when it ends well. *)
Lemma strip_sigils_ok sigil what (kvs : list (pyval * pyval)) (acc ds : odict) :
  strip_sigils sigil what kvs acc = inr ds ->
  (NoDup (map fst acc) -> NoDup (map fst ds))
  /\ (forall n, n ∈ map fst ds
                <-> n ∈ map fst acc \/ PStr (sigil :: n) ∈ map fst kvs)
  /\ Forall (fun k => exists n, k = PStr (sigil :: n)) (map fst kvs).
Proof.
  revert acc. induction kvs as [|[k v] kvs IH]; intros acc; simpl.
  - intros [= <-]. split; [done|]. split; [|constructor].
    intros n. rewrite elem_of_nil. tauto.
  - destruct k as [| | |ks| | |]; try discriminate.
    destruct (Str.startswith ks [sigil]) eqn:Hks; [|discriminate].
    apply has_sigil_cons in Hks.
    intros (Hnd & Hin & Hall)%IH. split; [|split].
    + intros Hacc. by apply Hnd, set_keys_NoDup.
    + intros n. rewrite Hin, set_keys_elem, elem_of_cons.
      split.
      * intros [[->|?]|?]; [|tauto..]. right. left. by rewrite <- Hks.
      * intros [?|[Heq|?]]; [tauto| |tauto]. left. left.
        rewrite Hks in Heq. by injection Heq as ->.
    + constructor; [|done]. exists (drop 1 ks). by rewrite <- Hks.
Qed.

(** What stopped the loop when it raises. *)
Lemma strip_sigils_raises sigil what (kvs : list (pyval * pyval)) (acc : odict) e :
  strip_sigils sigil what kvs acc = inl e ->
  (e = AttributeError
   /\ exists k, k ∈ map fst kvs
                /\ (forall s, k <> PStr s) /\ (forall b, k <> PBytes b))
  \/ (e = TypeError /\ exists b, PBytes b ∈ map fst kvs)
  \/ (exists k, e = ValueError (what ++ k)
                /\ PStr k ∈ map fst kvs /\ ~ has_sigil sigil k).
Proof.
  revert acc. induction kvs as [|[k v] kvs IH]; intros acc; simpl;
    [discriminate|].
  destruct k as [| | |ks| | |b];
    try (intros [= <-]; left; split; [done|]; eexists; split;
         [by left | split; discriminate]).
  - destruct (Str.startswith ks [sigil]) eqn:Hks.
    + intros [[-> (k & Hk & Hns)]|[[-> [b Hb]]|(k & -> & Hk & Hbad)]]%IH.
      * left. split; [done|]. exists k. split; [by right|done].
      * right. left. split; [done|]. exists b. by right.
      * right. right. exists k. split; [done|]. split; [by right|done].
    + intros [= <-]. right. right. exists ks. split; [done|].
      split; [by left|]. unfold has_sigil. by rewrite Hks.
  - intros [= <-]. right. left. split; [done|]. exists b. by left.
Qed.

(** The doc splitter raises only what the loader raised, a parser error
    turned into a schema error. *)
Lemma parse_doc_raises doc mark e :
  _parse_doc doc mark = inl e ->
  exists text,
    (exists msg, yaml_load text = inl (ParserError msg) /\ e = SchemaError msg)
    \/ (yaml_load text = inl e /\ forall msg, e <> ParserError msg).
Proof.
  destruct doc as [doc|]; simpl; [|discriminate].
  destruct (Re.search mark doc) as [i|]; [|discriminate].
  destruct (yaml_load _) as [[]|data] eqn:Hload; try discriminate;
    intros [= <-]; eexists; first [by left; eexists | by right].
Qed.

Lemma parse_block_ok sigil what mark doc desc ds :
  ('(desc, data) ← _parse_doc doc mark;
   kvs ← items data;
   ds ← strip_sigils sigil what kvs [];
   mret (desc, ds)) = inr (desc, ds) ->
  exists kvs,
    _parse_doc doc mark = inr (desc, PDict kvs)
    /\ NoDup (map fst ds)
    /\ (forall n, n ∈ map fst ds <-> PStr (sigil :: n) ∈ map fst kvs)
    /\ Forall (fun k => exists n, k = PStr (sigil :: n)) (map fst kvs).
Proof.
  destruct (_parse_doc doc mark) as [e|[desc' data]]; simpl; [discriminate|].
  destruct data as [| | | | |kvs|]; try discriminate. simpl.
  destruct (strip_sigils sigil what kvs []) as [e|ds'] eqn:Hloop; simpl;
    [discriminate|].
  intros [= -> ->]. exists kvs. split; [done|].
  apply strip_sigils_ok in Hloop as (Hnd & Hin & Hall).
  split; [apply Hnd; constructor|]. split; [|done].
  intros n. rewrite Hin, elem_of_nil. tauto.
Qed.

(** X5. When [parse_directive] or [parse_shared] succeeds, the block was a
    mapping all of whose keys are strings that start with the sigil, the
    names returned are pairwise distinct, and a name is returned exactly
    when the block has the key made of the sigil and that name. *)
Theorem parsed_names_are_the_block_keys doc desc (ds : odict) :
  (parse_directive doc = inr (desc, ds) ->
   exists kvs,
     _parse_doc doc RE_DIRECTIVE = inr (desc, PDict kvs)
     /\ NoDup (map fst ds)
     /\ (forall n, n ∈ map fst ds <-> PStr (DOLLAR :: n) ∈ map fst kvs)
     /\ Forall (fun k => exists n, k = PStr (DOLLAR :: n)) (map fst kvs))
  /\ (parse_shared doc = inr (desc, ds) ->
      exists kvs,
        _parse_doc doc RE_SHARED = inr (desc, PDict kvs)
        /\ NoDup (map fst ds)
        /\ (forall n, n ∈ map fst ds <-> PStr (AT :: n) ∈ map fst kvs)
        /\ Forall (fun k => exists n, k = PStr (AT :: n)) (map fst kvs)).
Proof. split; apply parse_block_ok. Qed.

Lemma parse_block_raises sigil what mark doc e :
  ('(desc, data) ← _parse_doc doc mark;
   kvs ← items data;
   ds ← strip_sigils sigil what kvs [];
   mret (desc, ds)) = inl e ->
  (exists text msg,
      yaml_load text = inl (ParserError msg) /\ e = SchemaError msg)
  \/ (exists text, yaml_load text = inl e /\ forall msg, e <> ParserError msg)
  \/ (e = AttributeError
      /\ exists desc data,
           _parse_doc doc mark = inr (desc, data)
           /\ forall kvs, data = PDict kvs ->
                          exists k, k ∈ map fst kvs
                                    /\ (forall s, k <> PStr s)
                                    /\ (forall b, k <> PBytes b))
  \/ (e = TypeError
      /\ exists desc kvs b,
           _parse_doc doc mark = inr (desc, PDict kvs)
           /\ PBytes b ∈ map fst kvs)
  \/ (exists desc kvs k,
         _parse_doc doc mark = inr (desc, PDict kvs)
         /\ PStr k ∈ map fst kvs /\ ~ has_sigil sigil k
         /\ e = ValueError (what ++ k)).
Proof.
  destruct (_parse_doc doc mark) as [e'|[desc data]] eqn:Hdoc; simpl.
  - intros [= <-].
    destruct (parse_doc_raises _ _ _ Hdoc) as [text [[msg H]|H]];
      [left | right; left]; eauto.
  - destruct data as [| | | | |kvs|];
      try (intros [= <-]; right; right; left; split; [done|];
           exists desc; eexists; split; [done|]; discriminate).
    simpl.
    destruct (strip_sigils sigil what kvs []) as [e'|ds] eqn:Hloop; simpl;
      [|discriminate].
    intros [= <-].
    apply strip_sigils_raises in Hloop
      as [[-> (k & Hk & Hns)]|[[-> [b Hb]]|(k & -> & Hk & Hbad)]].
    + right. right. left. split; [done|]. exists desc, (PDict kvs).
      split; [done|]. intros kvs' [= <-]. by exists k.
    + right. right. right. left. split; [done|]. by exists desc, kvs, b.
    + right. right. right. right. by exists desc, kvs, k.
Qed.

(** X6. [parse_directive] and [parse_shared] raise nothing but: a schema
    error carrying the message of a parser error of the loader; any other
    exception of the loader, unchanged; [AttributeError], when what was
    loaded is not a mapping or has a key that is neither a string nor
    bytes; [TypeError], when the block has a bytes key; and [ValueError]
    naming a string key of the block that lacks the sigil. *)
Theorem parsers_raise_only doc e :
  (parse_directive doc = inl e ->
   (exists text msg,
       yaml_load text = inl (ParserError msg) /\ e = SchemaError msg)
   \/ (exists text, yaml_load text = inl e /\ forall msg, e <> ParserError msg)
   \/ (e = AttributeError
       /\ exists desc data,
            _parse_doc doc RE_DIRECTIVE = inr (desc, data)
            /\ forall kvs, data = PDict kvs ->
                           exists k, k ∈ map fst kvs
                                     /\ (forall s, k <> PStr s)
                                     /\ (forall b, k <> PBytes b))
   \/ (e = TypeError
       /\ exists desc kvs b,
            _parse_doc doc RE_DIRECTIVE = inr (desc, PDict kvs)
            /\ PBytes b ∈ map fst kvs)
   \/ (exists desc kvs k,
          _parse_doc doc RE_DIRECTIVE = inr (desc, PDict kvs)
          /\ PStr k ∈ map fst kvs /\ ~ has_sigil DOLLAR k
          /\ e = ValueError (py "Invalid directive " ++ k)))
  /\ (parse_shared doc = inl e ->
      (exists text msg,
          yaml_load text = inl (ParserError msg) /\ e = SchemaError msg)
      \/ (exists text, yaml_load text = inl e /\ forall msg, e <> ParserError msg)
      \/ (e = AttributeError
          /\ exists desc data,
               _parse_doc doc RE_SHARED = inr (desc, data)
               /\ forall kvs, data = PDict kvs ->
                              exists k, k ∈ map fst kvs
                                        /\ (forall s, k <> PStr s)
                                        /\ (forall b, k <> PBytes b))
      \/ (e = TypeError
          /\ exists desc kvs b,
               _parse_doc doc RE_SHARED = inr (desc, PDict kvs)
               /\ PBytes b ∈ map fst kvs)
      \/ (exists desc kvs k,
             _parse_doc doc RE_SHARED = inr (desc, PDict kvs)
             /\ PStr k ∈ map fst kvs /\ ~ has_sigil AT k
             /\ e = ValueError (py "Invalid shared " ++ k))).
Proof. split; apply parse_block_raises. Qed.

End ParseResults.

(** ** More on directives and views *)

Section DirectiveFacts.

Variable origin_markdown : pystr -> list pystr -> pystr.
Variable json_dumps : pyval -> pystr.
Variable tmpl_render : document -> pystr.
Variable world : Type.

Local Abbreviation route_view :=
  (route_view origin_markdown json_dumps tmpl_render).

(** X7. The handler the input directive returns calls the original handler
    in one case only: it was called without arguments, the request data
    could be extracted, the validator accepted them and what it returned
    unpacks into keyword arguments; the original handler is then called
    with these.  In every other case the outcome does not depend on the
    original handler and the world is left as it was. *)
Theorem input_view_calls_handler_once (f : handler world)
    (validate : validator) req kw w :
  (exists raw data kws,
      kw = [] /\ get_request_data req = inr raw /\ validate raw = inr data
      /\ kwargs_of data = inr kws
      /\ input_view f validate req kw w = f req kws w)
  \/ (exists e,
         (forall g : handler world,
             input_view g validate req kw w = (w, inl e))
         /\ (kw <> []
             \/ (exists e', get_request_data req = inl e')
             \/ (exists raw e', get_request_data req = inr raw
                                /\ validate raw = inl e')
             \/ (exists raw data e', get_request_data req = inr raw
                                     /\ validate raw = inr data
                                     /\ kwargs_of data = inl e'))).
Proof.
  destruct kw as [|a kw].
  - destruct (get_request_data req) as [e|raw] eqn:Hraw.
    + right. exists e. split; [|right; left; by eexists].
      intros g. unfold input_view, mbind, io_bind, lift. rewrite Hraw.
      simpl. destruct e; try done.
      unfold get_request_data in Hraw.
      repeat case_match; try discriminate.
    + destruct (validate raw) as [e|data] eqn:Hval.
      * right. exists (match e with Invalid msg => aborted msg | _ => e end).
        split; [|right; right; left; by eexists _, _].
        intros g. unfold input_view, mbind, io_bind, lift. rewrite Hraw.
        simpl. rewrite Hval. by destruct e.
      * destruct (kwargs_of data) as [e|kws] eqn:Hkw.
        -- right. exists e.
           split; [|right; right; right; by eexists _, _, _].
           intros g. unfold input_view, mbind, io_bind, lift. rewrite Hraw.
           simpl. rewrite Hval. simpl. by rewrite Hkw.
        -- left. exists raw, data, kws. repeat split; try done.
           unfold input_view, mbind, io_bind, lift. rewrite Hraw.
           simpl. rewrite Hval. simpl. by rewrite Hkw.
  - right. exists TypeError. split; [done|by left].
Qed.

(** The two built-in wrappers commute. *)
Lemma views_commute (f : handler world) (check validate : validator) req kw w :
  output_view (input_view f check) validate req kw w
  = input_view (output_view f validate) check req kw w.
Proof.
  unfold output_view, input_view, mbind, io_bind, lift.
  destruct kw; [|done].
  destruct (except_invalid _) as [e|data]; [done|].
  by destruct (kwargs_of data).
Qed.

(** X8. The order in which a comment declares [$input] and [$output] does
    not matter: when the handler can be built with the input directive
    applied first, it can be built with the output directive applied first,
    and the two handlers return the same outcome on every call. *)
Theorem builtin_directives_commute registry api (f h : handler world)
    (meta_in meta_out : pyval) :
  registry !! py "input" = Some (@input_directive world) ->
  registry !! py "output" = Some (@output_directive world) ->
  apply_directives registry api f
    [(py "input", meta_in); (py "output", meta_out)] = inr h ->
  exists h',
    apply_directives registry api f
      [(py "output", meta_out); (py "input", meta_in)] = inr h'
    /\ forall req kw w, h req kw w = h' req kw w.
Proof.
  intros Hin Hout. cbn [apply_directives]. rewrite Hin, Hout.
  unfold input_directive, output_directive.
  destruct (ctx_schema_parser api meta_in) as [e|check];
    cbn [mbind result_bind mret result_ret]; [discriminate|].
  destruct (ctx_schema_parser api meta_out) as [e|validate];
    cbn [mbind result_bind mret result_ret]; [discriminate|].
  intros [= <-]. eexists. split; [reflexivity|].
  intros. apply views_commute.
Qed.

(** X9. Directives are applied in the order of the block, the first one
    next to the original handler: applying a block made of two parts is
    applying the first part, then the second part to what it built; in
    particular the directive declared last is the outermost wrapper. *)
Theorem apply_directives_app registry api (f : handler world)
    (ds1 ds2 : odict) :
  apply_directives registry api f (ds1 ++ ds2)
  = (f' ← apply_directives registry api f ds1;
     apply_directives registry api f' ds2)
  /\ (forall name meta make,
        registry !! name = Some make ->
        apply_directives registry api f (ds1 ++ [(name, meta)])
        = (f' ← apply_directives registry api f ds1; make f' meta api)).
Proof.
  assert (forall ds2 f,
             apply_directives registry api f (ds1 ++ ds2)
             = (f' ← apply_directives registry api f ds1;
                apply_directives registry api f' ds2)) as Happ.
  { clear. induction ds1 as [|[d meta] ds1 IH]; intros ds2 f; simpl; [done|].
    destruct (registry !! d) as [make|]; [|done].
    destruct (make f meta api) as [e|f']; simpl; [done|]. apply IH. }
  split; [apply Happ|].
  intros name meta make Hname. rewrite Happ.
  destruct (apply_directives registry api f ds1) as [e|f']; simpl; [done|].
  rewrite Hname. by destruct (make f' meta api).
Qed.

(** X10. Building a handler reads the registry at the names of its block
    only: two registries that hold the same factories under these names
    build the same handler, or fail alike. *)
Theorem apply_directives_reads_named
    (registry registry' : gmap pystr (factory world)) api
    (f : handler world) (directives : odict) :
  (forall name, name ∈ map fst directives ->
                registry !! name = registry' !! name) ->
  apply_directives registry api f directives
  = apply_directives registry' api f directives.
Proof.
  revert f. induction directives as [|[d meta] ds IH]; intros f Hsame;
    simpl; [done|].
  rewrite <- (Hsame d) by (simpl; by left).
  destruct (registry !! d) as [make|]; [|done].
  destruct (make f meta api) as [e|f']; simpl; [done|].
  apply IH. intros name Hname. apply Hsame. simpl. by right.
Qed.


End DirectiveFacts.

(** ** More on the application and its routes *)

Section AppFacts.

Variable unicode_alnum : char -> bool.
Variable yaml_load : pystr -> result pyval.
Variable origin_markdown : pystr -> list pystr -> pystr.
Variable json_dumps : pyval -> pystr.
Variable tmpl_render : document -> pystr.
Variable world : Type.
Variable flask : Flask world.

Local Abbreviation parse_shared := (parse_shared unicode_alnum yaml_load).
Local Abbreviation parse_directive := (parse_directive unicode_alnum yaml_load).
Local Abbreviation init := (init unicode_alnum yaml_load flask).
Local Abbreviation make_view := (make_view unicode_alnum yaml_load).
Local Abbreviation res := (res unicode_alnum yaml_load flask).
Local Abbreviation register_all := (register_all unicode_alnum yaml_load flask).
Local Abbreviation render := (render origin_markdown json_dumps tmpl_render).
Local Abbreviation route_view :=
  (route_view origin_markdown json_dumps tmpl_render).
Local Abbreviation dispatch := (dispatch origin_markdown json_dumps tmpl_render flask).

(** X11. The constructor builds the application from the module comment:
    description and shared entries are those [parse_shared] returns, the
    schema parser is built on the shared entries, the route table is
    empty, and to the rules and views Flask's constructor has set up (the
    static files, if any) it adds the rule [/], served by the root view.
    A directive the caller supplies replaces the built-in of the same
    name, and the built-ins the caller does not name stay.  When the module
    comment cannot be parsed the constructor raises the same exception. *)
Theorem init_builds module_doc make_parser directives :
  (forall a : Fighting world,
      init module_doc make_parser directives = inr a ->
      parse_shared module_doc = inr (_desc a, _shared a)
      /\ make_parser (_shared a) = inr (schema_parser a)
      /\ _resources a = ∅
      /\ url_map a = static_rules flask ++ [(py "/", ([GET], py "_doc"))]
      /\ view_functions a = <[py "_doc" := DocView]> (static_views flask)
      /\ (forall name,
            _directives a !! name
            = match directives ≫= (fun ds => ds !! name) with
              | Some make => Some make
              | None => builtin_directives world !! name
              end))
  /\ (forall e, parse_shared module_doc = inl e ->
                init module_doc make_parser directives = inl e).
Proof.
  split.
  - intros a. unfold init.
    destruct (parse_shared module_doc) as [e|[desc shared]];
      cbv beta iota delta [mbind result_bind]; [discriminate|].
    destruct (make_parser shared) as [e|parse] eqn:Hparse; [discriminate|].
    unfold route. change (compile_rule flask (py "/")) with (@None exn).
    cbn [view_functions]. rewrite static_views_doc.
    cbv beta iota delta [mret result_ret]. intros [= <-].
    cbn [_desc _shared schema_parser _resources url_map view_functions
         _directives].
    repeat split; try done.
    intros name. destruct directives as [ds|]; [|done].
    cbn [mbind option_bind]. rewrite lookup_union.
    destruct (ds !! name), (builtin_directives world !! name); done.
  - intros e He. unfold init. by rewrite He.
Qed.

(** What a registration leaves alone. *)
Lemma res_frame (a : Fighting world) resource f :
  _directives (res a resource f).1 = _directives a
  /\ _desc (res a resource f).1 = _desc a
  /\ _shared (res a resource f).1 = _shared a
  /\ schema_parser (res a resource f).1 = schema_parser a
  /\ (exists extra, url_map (res a resource f).1 = url_map a ++ extra)
  /\ (forall ep v, view_functions a !! ep = Some v ->
                   view_functions (res a resource f).1 !! ep = Some v).
Proof.
  unfold res. destruct (make_view _ f) as [e|v]; simpl.
  - repeat split; try done. exists []. by rewrite app_nil_r.
  - unfold route. destruct (compile_rule _ _); simpl.
    { repeat split; try done. exists []. by rewrite app_nil_r. }
    cbn [view_functions url_map].
    destruct (view_functions a !! _) as [old|] eqn:Hold; simpl.
    + repeat split; try done. by eexists.
    + repeat split; try done; [by eexists|].
      intros ep v' Hep. rewrite lookup_insert_ne; [done|]. congruence.
Qed.

Lemma register_all_frame (calls : list (pystr * pyfunc world))
    (a : Fighting world) :
  _directives (register_all a calls) = _directives a
  /\ _desc (register_all a calls) = _desc a
  /\ _shared (register_all a calls) = _shared a
  /\ schema_parser (register_all a calls) = schema_parser a
  /\ (exists extra, url_map (register_all a calls) = url_map a ++ extra)
  /\ (forall ep v, view_functions a !! ep = Some v ->
                   view_functions (register_all a calls) !! ep = Some v).
Proof.
  revert a. induction calls as [|[r f] calls IH]; intros a.
  - repeat split; try done. exists []. by rewrite app_nil_r.
  - unfold register_all in *. simpl.
    destruct (IH (res a r f).1) as (H1 & H2 & H3 & H4 & [extra H5] & H6).
    destruct (res_frame a r f) as (G1 & G2 & G3 & G4 & [extra' G5] & G6).
    rewrite H1, H2, H3, H4, H5, G1, G2, G3, G4, G5.
    repeat split; try done.
    + exists (extra' ++ extra). by rewrite app_assoc.
    + intros ep v Hep. by apply H6, G6.
Qed.

(** X14. Registering routes changes neither the directive registry, nor
    the description, the shared entries or the schema parser; it never
    removes or replaces a rule or a view function; and a route that is
    served keeps answering every request as before, however many routes
    are registered after it. *)
Theorem registrations_keep_existing_routes (a : Fighting world)
    (calls : list (pystr * pyfunc world)) :
  _directives (register_all a calls) = _directives a
  /\ _desc (register_all a calls) = _desc a
  /\ _shared (register_all a calls) = _shared a
  /\ schema_parser (register_all a calls) = schema_parser a
  /\ (forall path target,
        find_rule (url_map a) path = Some target ->
        find_rule (url_map (register_all a calls)) path = Some target)
  /\ (forall ep v,
        view_functions a !! ep = Some v ->
        view_functions (register_all a calls) !! ep = Some v)
  /\ (forall path methods ep desc directives h req w,
        find_rule (url_map a) path = Some (methods, ep) ->
        view_functions a !! ep = Some (RouteView desc directives h) ->
        dispatch (register_all a calls) path req w = dispatch a path req w).
Proof.
  destruct (register_all_frame calls a) as (H1 & H2 & H3 & H4 & [extra H5] & H6).
  assert (forall path target,
             find_rule (url_map a) path = Some target ->
             find_rule (url_map (register_all a calls)) path = Some target)
    as Hrule.
  { intros path target Hfind. rewrite H5. by apply find_rule_app. }
  repeat split; try done.
  intros path methods ep desc directives h req w Hfind Hview.
  unfold dispatch. rewrite (Hrule _ _ Hfind), Hfind.
  by rewrite (H6 _ _ Hview), Hview.
Qed.


End AppFacts.

(** ** The client *)

Section ClientFacts.

Variable requests_post : pystr -> option pyval -> post_outcome.

Local Abbreviation post := (post requests_post).

(** X15. [Res.post] returns a value exactly when the request was answered
    with a status outside 400..599 and a JSON body, and the value is that
    body.  Otherwise it raises [ResError]: with the text of the request
    exception when the request failed; for a 4xx or 5xx answer with the
    JSON body of the answer, or with the text of the HTTP error when the
    body is not JSON; with a fixed message when a good answer is not JSON.
    Nothing else is raised unless [requests.post] raised something that is
    not a request exception. *)
Theorem post_outcomes (self : Res) (url : pystr) (data : option pyval) :
  (forall value,
      post self url data = inr value
      <-> exists response,
            requests_post (url_prefix self ++ url) data = Responded response
            /\ ((http_status response < 400)%Z \/ (600 <= http_status response)%Z)
            /\ http_json response = Some value)
  /\ (forall text,
        requests_post (url_prefix self ++ url) data = RequestException text ->
        post self url data = inl (ResError (PStr text)))
  /\ (forall response,
        requests_post (url_prefix self ++ url) data = Responded response ->
        (400 <= http_status response < 600)%Z ->
        post self url data
        = inl (ResError (match http_json response with
                         | Some msg => msg
                         | None => PStr (http_error response)
                         end)))
  /\ (forall response,
        requests_post (url_prefix self ++ url) data = Responded response ->
        (http_status response < 400)%Z \/ (600 <= http_status response)%Z ->
        http_json response = None ->
        post self url data
        = inl (ResError (PStr (py "response data not valid JSON document"))))
  /\ (forall e,
        post self url data = inl (Uncaught e)
        <-> requests_post (url_prefix self ++ url) data = OtherException e).
Proof.
  unfold post, raises_for_status.
  destruct (requests_post (url_prefix self ++ url) data) as [r|text|e].
  - destruct (Z.leb_spec 400 (http_status r)), (Z.ltb_spec (http_status r) 600);
      simpl; destruct (http_json r) as [v|] eqn:Hjson;
      (split; [intros value; split;
                 [try discriminate; intros [= <-]; exists r;
                  repeat split; try done; lia
                 |intros (r' & [= <-] & Hs & Hv); first [lia | congruence]]|]);
      (split; [discriminate|]);
      (split; [intros r' [= <-] ?; first [lia | by rewrite ?Hjson]|]);
      (split; [intros r' [= <-] ? ?; first [lia | congruence]|]);
      intros e; split; discriminate.
  - split; [intros value; split; [discriminate|by intros (? & ? & _)]|].
    split; [by intros ? [= <-]|]. repeat split; discriminate.
  - split; [intros value; split; [discriminate|by intros (? & ? & _)]|].
    repeat split; try discriminate; congruence.
Qed.

(** X16. A request the server aborts surfaces in the client as a
    [ResError] with the message of the abort: when the answer the client
    receives has the status and the JSON body of the response [abort]
    makes, [Res.post] raises [ResError] with that message. *)
Theorem abort_message_reaches_client (self : Res) url payload response
    message :
  requests_post (url_prefix self ++ url) payload = Responded response ->
  http_status response = status_code (finalize (inl (aborted message))) ->
  Json <$> http_json response
  = Some (data (finalize (inl (aborted message)))) ->
  post self url payload = inl (ResError (PStr message)).
Proof.
  intros Hpost Hstatus Hbody. unfold post, raises_for_status.
  rewrite Hpost, Hstatus. simpl in *.
  destruct (http_json response) as [v|]; [|discriminate].
  by injection Hbody as ->.
Qed.

End ClientFacts.

Section FailedRegistration.

Variable unicode_alnum : char -> bool.
Variable yaml_load : pystr -> result pyval.
Variable origin_markdown : pystr -> list pystr -> pystr.
Variable json_dumps : pyval -> pystr.
Variable tmpl_render : document -> pystr.
Variable world : Type.
Variable flask : Flask world.

Local Abbreviation res := (res unicode_alnum yaml_load flask).
Local Abbreviation dispatch := (dispatch origin_markdown json_dumps tmpl_render flask).

(** X17. A registration that fails, other than for an endpoint that is
    taken, still leaves its entry in the route table: the decorator raises
    and adds no rule and no view, but the handler is listed last under its
    resource, and the JSON form of the documentation shows it.  A request
    to the URL listed is answered 404 when no plain rule of the
    application is found for it and werkzeug matches it to no other rule,
    such as the rule of the static files. *)
Theorem failed_registration_is_listed (a : Fighting world) resource
    (f : pyfunc world) e :
  (res a resource f).2 = inl e ->
  view_functions a !! (resource ++ py "." ++ fn_name f) = None ->
  _resources (res a resource f).1 !! resource
  = Some (default [] (_resources a !! resource) ++ [entry_of resource f])
  /\ url_map (res a resource f).1 = url_map a
  /\ view_functions (res a resource f).1 = view_functions a
  /\ (exists items,
        resources_val (_resources (res a resource f).1) = PDict items
        /\ (PStr resource,
            PList (map entry_val (default [] (_resources a !! resource)
                                  ++ [entry_of resource f]))) ∈ items)
  /\ (forall req w,
        find_rule (url_map a) (url (entry_of resource f)) = None ->
        url_match flask (url_map a) (url (entry_of resource f)) (method req)
        = NotFound ->
        dispatch (res a resource f).1 (url (entry_of resource f)) req w
        = (w, error_response 404)).
Proof.
  intros Hfail Hfree.
  pose proof (res_appends_entry unicode_alnum yaml_load world flask
                                a resource f) as Hentry.
  assert (url_map (res a resource f).1 = url_map a
          /\ view_functions (res a resource f).1 = view_functions a)
    as [Hrules Hviews].
  { revert Hfail. unfold res.
    destruct (make_view _ _ _ f) as [e'|v]; [done|].
    unfold route. destruct (compile_rule _ _); [done|].
    cbn [view_functions]. by rewrite Hfree. }
  split; [done|]. split; [done|]. split; [done|]. split.
  - eexists. split; [reflexivity|].
    apply elem_of_map_to_list in Hentry.
    apply list_elem_of_In,
      (in_map (fun kv => (PStr kv.1, PList (map entry_val kv.2))) _
              (resource, _)).
    by apply list_elem_of_In.
  - intros req w Hnone Hmatch. unfold dispatch.
    by rewrite Hrules, Hnone, Hmatch.
Qed.

End FailedRegistration.

(** ** Concrete runs *)

(** Settle a decidable closed goal by evaluation. *)
Ltac by_compute :=
  match goal with
  | |- ?P => apply (@bool_decide_unpack P _); vm_compute; exact I
  end.



Lemma parse_doc_witness :
  _parse_doc Demo.flat_yaml (Some Demo.doc_price)
             (RE_DIRECTIVE Demo.ascii_only)
  = inr (Str.strip (Textwrap.dedent (take 3 Demo.doc_price)),
         PDict [(PStr (py "$x"), PStr (py "1"))]).
Proof.
  apply (parse_doc_cuts_at_leftmost_match Demo.ascii_only Demo.flat_yaml
           Demo.doc_price (RE_DIRECTIVE Demo.ascii_only)).
  - apply matches_at_compute. vm_compute. reflexivity.
  - intros j Hj Hm%matches_at_compute.
    destruct j as [|[|[|j]]]; [vm_compute in Hm; discriminate..|lia].
  - vm_compute. reflexivity.
Defined.

(** C2, as stated, fails. The line [pay $x: 1] is not a marker line, so
    the comment should come back whole with an empty mapping; the pattern
    is searched for anywhere, matches at offset 3, and the comment is cut
    there. With a marker line further down, the cut is at the earlier
    match inside the first line, not at the start of the marker line. *)
Lemma marker_inside_line_is_cut :
  spec_split_point Demo.ascii_only DOLLAR Demo.doc_price = None
  /\ spec_parse_doc Demo.ascii_only Demo.flat_yaml DOLLAR (Some Demo.doc_price)
     = inr (py "pay $x: 1", PDict [])
  /\ _parse_doc Demo.flat_yaml (Some Demo.doc_price)
                (RE_DIRECTIVE Demo.ascii_only)
     = inr (py "pay", PDict [(PStr (py "$x"), PStr (py "1"))])
  /\ _parse_doc Demo.flat_yaml (Some Demo.doc_price)
                (RE_DIRECTIVE Demo.ascii_only)
     <> spec_parse_doc Demo.ascii_only Demo.flat_yaml DOLLAR
                       (Some Demo.doc_price)
  /\ spec_split_point Demo.ascii_only DOLLAR Demo.doc_two = Some 11%nat
  /\ Re.search (RE_DIRECTIVE Demo.ascii_only) Demo.doc_two = Some 4%nat.
Proof.
  repeat split; try (vm_compute; reflexivity).
  vm_compute. discriminate.
Qed.

Lemma title_witness :
  get_title (Some Demo.doc_hello) = py "Say hello"
  /\ get_title (Some Demo.doc_long) = py "An action with a lon...".
Proof.
  split.
  - apply (title_from_first_comment_line Demo.ascii_only Demo.flat_yaml nat
             Demo.flask
             Demo.doc_hello).
    vm_compute. lia.
  - apply (title_from_first_comment_line Demo.ascii_only Demo.flat_yaml nat
             Demo.flask
             Demo.doc_long).
    vm_compute. lia.
Defined.

(** C8, as stated, fails. A comment that opens with its directive block has
    an empty description, whose first line gives the empty title, but the
    title recorded is the first line of the comment, [$input: name]; and a
    comment whose first line holds a space has the description [Title] and
    the empty title. *)
Lemma title_ignores_description :
  parse_directive Demo.ascii_only Demo.flat_yaml (Some Demo.doc_block_first)
  = inr ([], [(py "input", PStr (py "name"))])
  /\ spec_title [] = []
  /\ get_title (Some Demo.doc_block_first) = py "$input: name"
  /\ parse_directive Demo.ascii_only Demo.flat_yaml (Some Demo.doc_blank_first)
     = inr (py "Title", [])
  /\ spec_title (py "Title") = py "Title"
  /\ get_title (Some Demo.doc_blank_first) = [].
Proof. repeat split; vm_compute; reflexivity. Qed.

Lemma unknown_directive_witness :
  (exists e,
      (res Demo.ascii_only Demo.flat_yaml Demo.flask Demo.base (py "resource")
           Demo.f_unknown).2 = inl e
      /\ (forall meta rest,
             [(py "unknown", PStr (py "name"))] = (py "unknown", meta) :: rest ->
             e = KeyError (py "unknown")))
  /\ url_map (res Demo.ascii_only Demo.flat_yaml Demo.flask Demo.base (py "resource")
                  Demo.f_unknown).1 = url_map Demo.base
  /\ view_functions (res Demo.ascii_only Demo.flat_yaml Demo.flask Demo.base
                         (py "resource") Demo.f_unknown).1
     = view_functions Demo.base
  /\ (forall (b : Fighting nat) registry path req w,
        dispatch Demo.no_markdown Demo.no_dumps Demo.no_template Demo.flask
                 (with_directives b registry) path req w
        = dispatch Demo.no_markdown Demo.no_dumps Demo.no_template Demo.flask
                   b path req w).
Proof.
  apply (unknown_directive_fails_at_registration
           Demo.ascii_only Demo.flat_yaml
           Demo.no_markdown Demo.no_dumps Demo.no_template nat Demo.flask
           Demo.base (py "resource") Demo.f_unknown []
           [(py "unknown", PStr (py "name"))] (py "unknown")).
  - vm_compute. reflexivity.
  - by_compute.
  - vm_compute. reflexivity.
Defined.

Lemma no_block_witness :
  exists desc,
    parse_directive Demo.ascii_only Demo.flat_yaml (fn_doc Demo.f_plain)
    = inr (desc, [])
    /\ apply_directives (_directives Demo.base) (context_of Demo.base)
                        (fn_call Demo.f_plain) []
       = inr (fn_call Demo.f_plain)
    /\ make_view Demo.ascii_only Demo.flat_yaml Demo.base Demo.f_plain
       = inr (RouteView desc [] (fn_call Demo.f_plain))
    /\ (forall req w,
          method req = POST ->
          route_view Demo.no_markdown Demo.no_dumps Demo.no_template
                     desc [] (fn_call Demo.f_plain) req w
          = match fn_call Demo.f_plain req [] w with
            | (w', inl e) => (w', inl e)
            | (w', inr (Resp resp)) => (w', inr resp)
            | (w', inr r) => (w', inr (jsonify (to_val r)))
            end).
Proof.
  apply (no_block_no_wrapping Demo.ascii_only Demo.flat_yaml
           Demo.no_markdown Demo.no_dumps Demo.no_template nat
           Demo.base Demo.f_plain).
  right. exists (py "Say hello"). split; [reflexivity|].
  apply search_none. vm_compute. reflexivity.
Defined.

Lemma input_directive_witness :
  input_view Demo.hello Demo.need_name Demo.no_name [] 0%nat
  = (0%nat, inl (aborted (py "name: required")))
  /\ input_view Demo.hello Demo.need_name Demo.named [] 0%nat
     = Demo.hello Demo.named [(py "name", PStr (py "kk"))] 0%nat.
Proof.
  split.
  - apply (input_directive_validates nat Demo.hello (PStr (py "name"))
             (context_of Demo.base) Demo.need_name Demo.no_name 0%nat
             eq_refl)
      with (raw := Val (PDict [])); reflexivity.
  - apply (input_directive_validates nat Demo.hello (PStr (py "name"))
             (context_of Demo.base) Demo.need_name Demo.named 0%nat
             eq_refl)
      with (raw := Val (PDict [(PStr (py "name"), PStr (py "kk"))]));
      reflexivity.
Defined.

Lemma output_directive_witness :
  output_view Demo.hello Demo.need_name Demo.no_name [] 0%nat
  = (1%nat, inl (Invalid (py "name: required")))
  /\ route_view Demo.no_markdown Demo.no_dumps Demo.no_template [] []
                (output_view Demo.hello Demo.need_name) Demo.no_name 0%nat
     = (1%nat, inl (Invalid (py "name: required")))
  /\ status_code (finalize (inl (Invalid (py "name: required")))) = 500%Z.
Proof.
  destruct (output_directive_validates
              Demo.no_markdown Demo.no_dumps Demo.no_template nat
              Demo.hello (PStr (py "name")) (context_of Demo.base)
              Demo.need_name Demo.no_name [] 0%nat 1%nat (Val (PDict []))
              eq_refl eq_refl) as (_ & _ & H).
  destruct (H (py "name: required") eq_refl) as (H1 & H2 & _ & H4).
  split; [exact H1|]. split; [|exact H4].
  apply H2; reflexivity.
Defined.

Lemma bad_json_witness :
  get_request_data Demo.array_body
  = inl (aborted (py "JSON content must be object"))
  /\ get_request_data Demo.broken_body
     = inl (aborted (py "Invalid JSON content"))
  /\ input_view Demo.hello Demo.need_name Demo.array_body [] 0%nat
     = (0%nat, inl (aborted (py "JSON content must be object"))).
Proof.
  destruct (bad_json_aborts_extraction nat Demo.array_body)
    as (Hjson & _ & Hview).
  destruct (bad_json_aborts_extraction nat Demo.broken_body)
    as (Hjson' & _ & _).
  split; [|split].
  - apply (Hjson eq_refl) with (v := PList [PInt 1; PInt 2; PInt 3]);
      [reflexivity | discriminate].
  - apply (Hjson' eq_refl) with (e := LibraryError (py "bad request")).
    reflexivity.
  - apply Hview. reflexivity.
Defined.

(** C6, as stated, fails. The request data is extracted inside the handler
    the input directive returns, not before the directives.  On the route
    [/r/counted] the counting directive is wrapped around the input
    directive: a POST whose JSON body is an array is answered 400, but the
    counter has moved from 0 to 100, so a directive ran first.  On the
    route [/r/plain], which has no input directive, the same request is
    never examined: the handler runs and the answer is 200. *)
Lemma bad_json_reaches_directive_and_handler :
  dispatch Demo.no_markdown Demo.no_dumps Demo.no_template Demo.flask
           Demo.served (py "/r/counted") Demo.array_body 0%nat
  = (100%nat,
     {| status_code := 400; mimetype := APPLICATION_JSON;
        data := Json (PStr (py "JSON content must be object")) |})
  /\ dispatch Demo.no_markdown Demo.no_dumps Demo.no_template Demo.flask
              Demo.served (py "/r/plain") Demo.array_body 0%nat
     = (1%nat, jsonify (PDict []))
  /\ dispatch Demo.no_markdown Demo.no_dumps Demo.no_template Demo.flask
              Demo.served (py "/r/plain") Demo.broken_body 0%nat
     = (1%nat, jsonify (PDict [])).
Proof. repeat split; vm_compute; reflexivity. Qed.


(** Registering under [zoo], then [ant], then [zoo] again: [ant] is shown
    first, and the two routes of [zoo] keep the order of registration. *)
Example resources_shown_sorted :
  doc_resources
    (template_context Demo.no_markdown Demo.no_dumps [] None
       (Some (_resources
                (register_all Demo.ascii_only Demo.flat_yaml Demo.flask Demo.base
                   [(py "zoo", Demo.f_plain); (py "ant", Demo.f_counted);
                    (py "zoo", Demo.f_counted)])))
       None)
  = [(py "ant", [{| title := py "Say hello"; url := py "/ant/counted" |}]);
     (py "zoo", [{| title := py "Say hello"; url := py "/zoo/plain" |};
                 {| title := py "Say hello"; url := py "/zoo/counted" |}])].
Proof. vm_compute. reflexivity. Qed.

(** On the test suite's comment the two readings agree: the leftmost match
    is the start of the line [$input: name]. *)
Example cut_at_marker_line :
  Re.search (RE_DIRECTIVE Demo.ascii_only) Demo.doc_hello = Some 16%nat
  /\ spec_split_point Demo.ascii_only DOLLAR Demo.doc_hello = Some 16%nat.
Proof. split; vm_compute; reflexivity. Qed.

(** The constructor succeeds on the instance: [Demo.base] is what it
    builds. *)
Example app_built : Demo.app = inr Demo.base.
Proof. vm_compute. reflexivity. Qed.

Lemma comment_without_sigil_witness :
  parse_directive Demo.ascii_only Demo.flat_yaml (Some Demo.doc_mixed)
  = inr (Str.strip (Textwrap.dedent Demo.doc_mixed), []).
Proof.
  apply (comment_without_sigil_is_prose Demo.ascii_only Demo.flat_yaml
           Demo.doc_mixed).
  by_compute.
Defined.

Lemma description_witness :
  exists desc,
    _parse_doc Demo.flat_yaml (Some Demo.doc_hello) (marker Demo.ascii_only DOLLAR)
    = inr (desc, PDict [(PStr (py "$input"), PStr (py "name"));
                        (PStr (py "$output"), PStr (py "message"))])
    /\ _parse_doc Demo.flat_yaml (Some (take 16 Demo.doc_hello))
                  (marker Demo.ascii_only DOLLAR)
       = inr (desc, PDict [])
    /\ Re.match_prefix (marker Demo.ascii_only DOLLAR)
                       (drop 16 Demo.doc_hello) = true.
Proof.
  apply (description_is_that_of_the_prose Demo.ascii_only Demo.flat_yaml
           DOLLAR Demo.doc_hello 16).
  - vm_compute. reflexivity.
  - vm_compute. reflexivity.
Defined.

Lemma parsed_names_witness :
  exists kvs,
    _parse_doc Demo.flat_yaml (Some Demo.doc_hello)
               (RE_DIRECTIVE Demo.ascii_only)
    = inr (py "Say hello", PDict kvs)
    /\ NoDup (map fst [(py "input", PStr (py "name"));
                       (py "output", PStr (py "message"))])
    /\ (forall n,
          n ∈ map fst [(py "input", PStr (py "name"));
                       (py "output", PStr (py "message"))]
          <-> PStr (DOLLAR :: n) ∈ map fst kvs)
    /\ Forall (fun k => exists n, k = PStr (DOLLAR :: n)) (map fst kvs).
Proof.
  apply (parsed_names_are_the_block_keys Demo.ascii_only Demo.flat_yaml
           (Some Demo.doc_hello) (py "Say hello")).
  vm_compute. reflexivity.
Defined.

Lemma parsers_raise_witness :
  (exists text msg,
      Demo.flat_yaml text = inl (ParserError msg)
      /\ Demo.ScannerError = SchemaError msg)
  \/ (exists text, Demo.flat_yaml text = inl Demo.ScannerError
                   /\ forall msg, Demo.ScannerError <> ParserError msg)
  \/ (Demo.ScannerError = AttributeError
      /\ exists desc data,
           _parse_doc Demo.flat_yaml (Some Demo.doc_broken)
                      (RE_DIRECTIVE Demo.ascii_only) = inr (desc, data)
           /\ forall kvs, data = PDict kvs ->
                          exists k, k ∈ map fst kvs
                                    /\ (forall s, k <> PStr s)
                                    /\ (forall b, k <> PBytes b))
  \/ (Demo.ScannerError = TypeError
      /\ exists desc kvs b,
           _parse_doc Demo.flat_yaml (Some Demo.doc_broken)
                      (RE_DIRECTIVE Demo.ascii_only) = inr (desc, PDict kvs)
           /\ PBytes b ∈ map fst kvs)
  \/ (exists desc kvs k,
         _parse_doc Demo.flat_yaml (Some Demo.doc_broken)
                    (RE_DIRECTIVE Demo.ascii_only) = inr (desc, PDict kvs)
         /\ PStr k ∈ map fst kvs /\ ~ has_sigil DOLLAR k
         /\ Demo.ScannerError
            = ValueError (py "Invalid directive " ++ k)).
Proof.
  apply (parsers_raise_only Demo.ascii_only Demo.flat_yaml
           (Some Demo.doc_broken) Demo.ScannerError).
  vm_compute. reflexivity.
Defined.

Lemma builtin_directives_commute_witness :
  exists h',
    apply_directives (_directives Demo.base) (context_of Demo.base) Demo.hello
      [(py "output", PStr (py "name")); (py "input", PStr (py "name"))]
    = inr h'
    /\ forall req kw w,
         output_view (input_view Demo.hello Demo.need_name) Demo.need_name
                     req kw w
         = h' req kw w.
Proof.
  apply (builtin_directives_commute nat (_directives Demo.base)
           (context_of Demo.base) Demo.hello
           (output_view (input_view Demo.hello Demo.need_name) Demo.need_name)
           (PStr (py "name")) (PStr (py "name"))).
  - vm_compute. reflexivity.
  - vm_compute. reflexivity.
  - vm_compute. reflexivity.
Defined.

Lemma apply_directives_app_witness :
  apply_directives (_directives Demo.base) (context_of Demo.base) Demo.hello
    ([(py "input", PStr (py "name"))] ++ [(py "count", PInt 1)])
  = (f' ← apply_directives (_directives Demo.base) (context_of Demo.base)
            Demo.hello [(py "input", PStr (py "name"))];
     Demo.count_directive f' (PInt 1) (context_of Demo.base)).
Proof.
  apply (apply_directives_app nat (_directives Demo.base)
           (context_of Demo.base) Demo.hello
           [(py "input", PStr (py "name"))] []).
  vm_compute. reflexivity.
Defined.

Lemma apply_directives_reads_named_witness :
  apply_directives (_directives Demo.base) (context_of Demo.base) Demo.hello
    [(py "input", PStr (py "name")); (py "output", PStr (py "name"))]
  = apply_directives (builtin_directives nat) (context_of Demo.base) Demo.hello
      [(py "input", PStr (py "name")); (py "output", PStr (py "name"))].
Proof.
  apply (apply_directives_reads_named nat (_directives Demo.base)
           (builtin_directives nat)).
  intros name Hname.
  apply elem_of_cons in Hname as [->|Hname]; [vm_compute; reflexivity|].
  apply elem_of_cons in Hname as [->|Hname]; [vm_compute; reflexivity|].
  by apply elem_of_nil in Hname.
Defined.


Lemma init_builds_witness :
  parse_shared Demo.ascii_only Demo.flat_yaml None
  = inr (_desc Demo.base, _shared Demo.base)
  /\ Demo.make_parser (_shared Demo.base) = inr (schema_parser Demo.base)
  /\ _resources Demo.base = ∅
  /\ url_map Demo.base
     = static_rules Demo.flask ++ [(py "/", ([GET], py "_doc"))]
  /\ view_functions Demo.base
     = <[py "_doc" := DocView]> (static_views Demo.flask)
  /\ (forall name,
        _directives Demo.base !! name
        = match Some (<[py "count" := Demo.count_directive]>
                        (∅ : gmap pystr (factory nat)))
                ≫= (fun ds => ds !! name) with
          | Some make => Some make
          | None => builtin_directives nat !! name
          end).
Proof.
  apply (init_builds Demo.ascii_only Demo.flat_yaml nat Demo.flask None
           Demo.make_parser
           (Some (<[py "count" := Demo.count_directive]> ∅))).
  vm_compute. reflexivity.
Defined.



(** The route registered under the resource [<x>] answers 500 under the
    URL it is listed with as well, and no request reaches its handler. *)
Example variable_route_answers_500 :
  (res Demo.ascii_only Demo.flat_yaml Demo.flask_x Demo.base_x
       (py "<x>") Demo.f_plain).2 = inr tt
  /\ dispatch Demo.no_markdown Demo.no_dumps Demo.no_template Demo.flask_x
              (res Demo.ascii_only Demo.flat_yaml Demo.flask_x Demo.base_x
                   (py "<x>") Demo.f_plain).1
              (py "/<x>/plain") (Demo.get_request []) 0%nat
     = (0%nat, error_response 500)
  /\ dispatch Demo.no_markdown Demo.no_dumps Demo.no_template Demo.flask_x
              (res Demo.ascii_only Demo.flat_yaml Demo.flask_x Demo.base_x
                   (py "<x>") Demo.f_plain).1
              (py "/r/plain") Demo.named 0%nat
     = (0%nat, error_response 500).
Proof. repeat split; vm_compute; reflexivity. Qed.

(** A handler that fails to register under the resource [static] is
    listed with a URL that the rule of the static files matches: a POST
    there is answered 405, and a GET 404 for want of such a file. *)
Example static_rule_answers_listed_url :
  url (entry_of (py "static") Demo.f_unknown) = py "/static/invalid2"
  /\ (res Demo.ascii_only Demo.flat_yaml Demo.flask Demo.base
           (py "static") Demo.f_unknown).2 = inl (KeyError (py "unknown"))
  /\ dispatch Demo.no_markdown Demo.no_dumps Demo.no_template Demo.flask
              (res Demo.ascii_only Demo.flat_yaml Demo.flask Demo.base
                   (py "static") Demo.f_unknown).1
              (py "/static/invalid2") Demo.named 0%nat
     = (0%nat, error_response 405)
  /\ dispatch Demo.no_markdown Demo.no_dumps Demo.no_template Demo.flask
              (res Demo.ascii_only Demo.flat_yaml Demo.flask Demo.base
                   (py "static") Demo.f_unknown).1
              (py "/static/invalid2") (Demo.get_request []) 0%nat
     = (0%nat, error_response 404).
Proof. repeat split; vm_compute; reflexivity. Qed.

Lemma failed_registration_witness :
  _resources (res Demo.ascii_only Demo.flat_yaml Demo.flask Demo.base
                  (py "resource") Demo.f_unknown).1 !! py "resource"
  = Some (default [] (_resources Demo.base !! py "resource")
          ++ [entry_of (py "resource") Demo.f_unknown])
  /\ (forall req w,
        dispatch Demo.no_markdown Demo.no_dumps Demo.no_template Demo.flask
                 (res Demo.ascii_only Demo.flat_yaml Demo.flask Demo.base
                      (py "resource") Demo.f_unknown).1
                 (url (entry_of (py "resource") Demo.f_unknown)) req w
        = (w, error_response 404)).
Proof.
  destruct (failed_registration_is_listed Demo.ascii_only Demo.flat_yaml
              Demo.no_markdown Demo.no_dumps Demo.no_template nat Demo.flask
              Demo.base (py "resource") Demo.f_unknown
              (KeyError (py "unknown")))
    as (H1 & _ & _ & _ & H5).
  - vm_compute. reflexivity.
  - vm_compute. reflexivity.
  - split; [exact H1|]. intros req w. apply H5; vm_compute; reflexivity.
Defined.

Lemma post_outcomes_witness :
  post Demo.transport Demo.client (py "/counted")
       (Some (PDict [(PStr (py "name"), PStr (py "kk"))]))
  = inr (PDict [(PStr (py "name"), PStr (py "kk"))])
  /\ post Demo.transport Demo.client (py "/counted") (Some (PDict []))
     = inl (ResError (PStr (py "name: required"))).
Proof.
  split.
  - apply (post_outcomes Demo.transport Demo.client (py "/counted")
             (Some (PDict [(PStr (py "name"), PStr (py "kk"))]))).
    exists {| http_status := 200;
              http_json := Some (PDict [(PStr (py "name"), PStr (py "kk"))]);
              http_error := py "HTTP error" |}.
    split; [vm_compute; reflexivity|]. split; [left; reflexivity|reflexivity].
  - destruct (post_outcomes Demo.transport Demo.client (py "/counted")
                (Some (PDict []))) as (_ & _ & H & _).
    apply (H {| http_status := 400;
                http_json := Some (PStr (py "name: required"));
                http_error := py "HTTP error" |}).
    + vm_compute. reflexivity.
    + simpl. lia.
Defined.

Lemma abort_message_witness :
  post Demo.transport Demo.client (py "/counted") (Some (PList []))
  = inl (ResError (PStr (py "JSON content must be object"))).
Proof.
  apply (abort_message_reaches_client Demo.transport Demo.client
           (py "/counted") (Some (PList []))
           {| http_status := 400;
              http_json := Some (PStr (py "JSON content must be object"));
              http_error := py "HTTP error" |}).
  - vm_compute. reflexivity.
  - reflexivity.
  - reflexivity.
Defined.
